(** * The MapR-DB session patch of pyspark ([python/pyspark/sql/maprpatch.py])

    [mapr_session_patch] attaches three closures to a live Spark session.
    Every closure is a short sequence of calls into objects that live
    outside the module (the py4j gateway, the session's reader, the native
    MapR-DB session, the DataFrame class).  The embedding keeps

    - the Python values that flow through the module as [value];
    - the attribute dictionaries of Python objects as a heap of [pyobj];
    - the cells of every activation of [mapr_session_patch] as [frames]
      (inner functions read their free variables from there);
    - every call that leaves the module as an entry of [trace], answered
      by a [bridge] that either returns a value or raises.

    Code runs in a state-and-exception monad [M]. *)

From stdpp Require Import gmap strings list fin_maps.
From Stdlib Require Import QArith.

Set Warnings "-register-all".
Close Scope Q_scope.

(** ** Values *)

Definition loc := nat.

(** The four functions defined inside [mapr_session_patch]. *)
Inductive fname :=
| FSetBufferWrites
| FLoadFromMapRDB
| FSaveToMapRDB
| FInsertToMapRDB.

(** Python values. [VObj l] is a reference; [VFun c f ds] is a function
    object: its code, the activation of [mapr_session_patch] it closes
    over, and its [__defaults__] tuple (evaluated when [def] ran). A float
    is held as the rational it denotes. *)
Inductive value :=
| VNone
| VBool (b : bool)
| VInt (z : Z)
| VFloat (q : Q)
| VStr (s : string)
| VObj (l : loc)
| VFun (code : fname) (frame : loc) (defaults : list value).

Inductive exn :=
| AttributeError (name : string)
| NameError (name : string)
| TypeError (msg : string)
| BridgeError (payload : string).

(** Calls that leave the module. *)
Inductive call :=
| JavaImport (jvm : value) (cls : string)
| GetMember (recv : value) (name : string)
| Invoke (callee : value) (args : list value)
| CallMethod (recv : value) (name : string) (args : list value)
| NewDataFrame (jdf sql_ctx : value).

Inductive outcome :=
| Returns (v : value)
| Raises (e : exn).

Definition event : Type := call * outcome.

(** A Python object: its instance dictionary, and whether [bool()] of it is
    [False] (its class defines [__bool__] or [__len__] and answers so). *)
Record pyobj := { attrs : gmap string value; falsy : bool }.

Record state := {
  heap : gmap loc pyobj;
  frames : gmap loc (gmap string value);
  trace : list event
}.

Definition set_heap (h : gmap loc pyobj) (st : state) : state :=
  {| heap := h; frames := frames st; trace := trace st |}.
Definition set_frames (fr : gmap loc (gmap string value)) (st : state) : state :=
  {| heap := heap st; frames := fr; trace := trace st |}.
Definition log (ev : event) (st : state) : state :=
  {| heap := heap st; frames := frames st; trace := trace st ++ [ev] |}.

(** ** The monad *)

Definition M (A : Type) : Type := state -> (exn + A) * state.

Definition ret {A} (a : A) : M A := fun st => (inr a, st).
Definition raise {A} (e : exn) : M A := fun st => (inl e, st).
Definition bind {A B} (m : M A) (k : A -> M B) : M B :=
  fun st => match m st with
            | (inl e, st') => (inl e, st')
            | (inr a, st') => k a st'
            end.

Notation "x <- m ;; k" := (bind m (fun x => k))
  (at level 100, m at next level, right associativity).

(** ** Truth value of [if v:] *)

Definition truthy (h : gmap loc pyobj) (v : value) : bool :=
  match v with
  | VNone => false
  | VBool b => b
  | VInt z => negb (z =? 0)%Z
  | VFloat q => negb (Qeq_bool q 0%Q)
  | VStr s => negb (String.eqb s "")
  | VObj l => match h !! l with Some o => negb (falsy o) | None => true end
  | VFun _ _ _ => true
  end.

Definition truth (v : value) : M bool := fun st => (inr (truthy (heap st) v), st).

(** ** Attributes and cells *)

Definition get_attr (h : gmap loc pyobj) (o : value) (name : string) : option value :=
  match o with
  | VObj l => h !! l ≫= fun ob => attrs ob !! name
  | _ => None
  end.

(** [o.name] *)
Definition getattr (o : value) (name : string) : M value :=
  fun st => match get_attr (heap st) o name with
            | Some v => (inr v, st)
            | None => (inl (AttributeError name), st)
            end.

(** [o.name = v]: no test of what [o.name] held before. *)
Definition setattr (o : value) (name : string) (v : value) : M unit :=
  fun st => match o with
            | VObj l =>
                match heap st !! l with
                | Some ob =>
                    (inr tt, set_heap (<[l := {| attrs := <[name := v]> (attrs ob);
                                                  falsy := falsy ob |}]> (heap st)) st)
                | None => (inl (AttributeError name), st)
                end
            | _ => (inl (AttributeError name), st)
            end.

(** A new activation of [mapr_session_patch] with its parameters bound. *)
Definition new_frame (cells : gmap string value) : M loc :=
  fun st => let f := fresh (dom (frames st)) in
            (inr f, set_frames (<[f := cells]> (frames st)) st).

(** The cell [x] of activation [f]. *)
Definition cell (fr : gmap loc (gmap string value)) (f : loc) (x : string) : option value :=
  fr !! f ≫= fun cells => cells !! x.

(** Read of a free variable of an inner function. *)
Definition read_cell (f : loc) (x : string) : M value :=
  fun st => match cell (frames st) f x with
            | Some v => (inr v, st)
            | None => (inl (NameError x), st)
            end.

Definition write_cell (f : loc) (x : string) (v : value) : M unit :=
  fun st => match frames st !! f with
            | Some cells => (inr tt, set_frames (<[f := <[x := v]> cells]> (frames st)) st)
            | None => (inl (NameError x), st)
            end.

(** [x = v] inside an inner function whose [nonlocal] declarations are
    [nonlocals] and whose own local variables are [locals]: the enclosing
    cell is written only for a declared name; any other name is bound in
    the function's own locals. *)
Definition assign (nonlocals : list string) (f : loc) (x : string) (v : value)
    (locals : gmap string value) : M (gmap string value) :=
  if bool_decide (x ∈ nonlocals)
  then (_ <- write_cell f x v ;; ret locals)
  else ret (<[x := v]> locals).

(** A parameter with a default: the argument when given, else the entry of
    [__defaults__]. *)
Definition resolve (a : option value) (defaults : list value) (i : nat) : option value :=
  match a with
  | Some v => Some v
  | None => defaults !! i
  end.

Definition bind_arg (a : option value) (defaults : list value) (i : nat) : M value :=
  match resolve a defaults i with
  | Some v => ret v
  | None => raise (TypeError "missing required argument")
  end.

(** Arguments of a call of one of the inner functions. *)
Inductive args :=
| ASetBufferWrites (bw : value)
| ALoad (table_name : value) (schema sample_size : option value)
| AWrite (dataframe table_name : value) (id_field_path create_table bulk_insert : option value).

Section Adapter.

Variable bridge : list event -> call -> outcome.

(** A call that leaves the module: answered by the bridge, and logged. *)
Definition ext (c : call) : M value :=
  fun st => let o := bridge (trace st) c in
            match o with
            | Returns v => (inr v, log (c, o) st)
            | Raises e => (inl e, log (c, o) st)
            end.

(** [def set_buffer_writes(bw): buffer_writes=bw] *)
Definition set_buffer_writes (f : loc) (bw : value) : M value :=
  _ <- assign [] f "buffer_writes" bw {[ "bw" := bw ]} ;;
  ret VNone.

(** [def loadFromMapRDB(table_name, schema = None, sample_size=default_sample_size)] *)
Definition loadFromMapRDB (f : loc) (defaults : list value)
    (table_name : value) (schema sample_size : option value) : M value :=
  schema <- bind_arg schema defaults 0 ;;
  sample_size <- bind_arg sample_size defaults 1 ;;
  original_session <- read_cell f "original_session" ;;
  r0 <- ext (GetMember original_session "read") ;;
  r1 <- ext (CallMethod r0 "format" [VStr "com.mapr.db.spark.sql"]) ;;
  r2 <- ext (CallMethod r1 "option" [VStr "tableName"; table_name]) ;;
  r3 <- ext (CallMethod r2 "option" [VStr "sampleSize"; sample_size]) ;;
  buffer_writes <- read_cell f "buffer_writes" ;;
  df_reader <- ext (CallMethod r3 "option" [VStr "bufferWrites"; buffer_writes]) ;;
  t <- truth schema ;;
  _ <- (if t then ext (CallMethod df_reader "schema" [schema]) else ret VNone) ;;
  ext (CallMethod df_reader "load" []).

(** [def saveToMapRDB(dataframe, table_name, id_field_path = default_id_field,
                      create_table = False, bulk_insert = False)] *)
Definition saveToMapRDB (f : loc) (defaults : list value)
    (dataframe table_name : value)
    (id_field_path create_table bulk_insert : option value) : M value :=
  id_field_path <- bind_arg id_field_path defaults 0 ;;
  create_table <- bind_arg create_table defaults 1 ;;
  bulk_insert <- bind_arg bulk_insert defaults 2 ;;
  mapr_j_session <- read_cell f "mapr_j_session" ;;
  buffer_writes <- read_cell f "buffer_writes" ;;
  _ <- ext (CallMethod mapr_j_session "setBufferWrites" [buffer_writes]) ;;
  mapr_j_session <- read_cell f "mapr_j_session" ;;
  jdf <- getattr dataframe "_jdf" ;;
  r <- ext (CallMethod mapr_j_session "saveToMapRDB"
              [jdf; table_name; id_field_path; create_table; bulk_insert]) ;;
  wrapped <- read_cell f "wrapped" ;;
  _ <- ext (NewDataFrame r wrapped) ;;
  ret VNone.

(** [def insertToMapRDB(dataframe, table_name, id_field_path = default_id_field,
                        create_table = False, bulk_insert = False)] *)
Definition insertToMapRDB (f : loc) (defaults : list value)
    (dataframe table_name : value)
    (id_field_path create_table bulk_insert : option value) : M value :=
  id_field_path <- bind_arg id_field_path defaults 0 ;;
  create_table <- bind_arg create_table defaults 1 ;;
  bulk_insert <- bind_arg bulk_insert defaults 2 ;;
  mapr_j_session <- read_cell f "mapr_j_session" ;;
  buffer_writes <- read_cell f "buffer_writes" ;;
  _ <- ext (CallMethod mapr_j_session "setBufferWrites" [buffer_writes]) ;;
  mapr_j_session <- read_cell f "mapr_j_session" ;;
  jdf <- getattr dataframe "_jdf" ;;
  r <- ext (CallMethod mapr_j_session "insertToMapRDB"
              [jdf; table_name; id_field_path; create_table; bulk_insert]) ;;
  wrapped <- read_cell f "wrapped" ;;
  _ <- ext (NewDataFrame r wrapped) ;;
  ret VNone.

(** [def mapr_session_patch(original_session, wrapped, gw,
        default_sample_size=1000.0, default_id_field ="_id", buffer_writes=True)] *)
Definition mapr_session_patch (original_session wrapped gw : value)
    (default_sample_size default_id_field buffer_writes : option value) : M value :=
  let default_sample_size := default (VFloat (1000 # 1)%Q) default_sample_size in
  let default_id_field := default (VStr "_id") default_id_field in
  let buffer_writes := default (VBool true) buffer_writes in
  f <- new_frame (<["original_session" := original_session]>
                  (<["wrapped" := wrapped]>
                  (<["buffer_writes" := buffer_writes]> ∅))) ;;
  jvm <- getattr gw "jvm" ;;
  _ <- ext (JavaImport jvm "com.mapr.db.spark.sql.api.java.MapRDBJavaSession") ;;
  jvm <- getattr gw "jvm" ;;
  cls <- ext (GetMember jvm "MapRDBJavaSession") ;;
  jss <- getattr original_session "_jsparkSession" ;;
  mapr_j_session <- ext (Invoke cls [jss]) ;;
  _ <- write_cell f "mapr_j_session" mapr_j_session ;;
  _ <- setattr original_session "loadFromMapRDB"
         (VFun FLoadFromMapRDB f [VNone; default_sample_size]) ;;
  _ <- setattr original_session "saveToMapRDB"
         (VFun FSaveToMapRDB f [default_id_field; VBool false; VBool false]) ;;
  _ <- setattr original_session "insertToMapRDB"
         (VFun FInsertToMapRDB f [default_id_field; VBool false; VBool false]) ;;
  ret VNone.

(** [fn(...)] for a value [fn]. *)
Definition call_value (fn : value) (a : args) : M value :=
  match fn, a with
  | VFun FSetBufferWrites f _, ASetBufferWrites bw => set_buffer_writes f bw
  | VFun FLoadFromMapRDB f ds, ALoad t s n => loadFromMapRDB f ds t s n
  | VFun FSaveToMapRDB f ds, AWrite d t i c b => saveToMapRDB f ds d t i c b
  | VFun FInsertToMapRDB f ds, AWrite d t i c b => insertToMapRDB f ds d t i c b
  | _, _ => raise (TypeError "not callable with these arguments")
  end.

(** [session.name(...)] *)
Definition call_attr (session : value) (name : string) (a : args) : M value :=
  fn <- getattr session name ;;
  call_value fn a.

End Adapter.


(** ** What a write call can do

    [write_outcome op h fr f ds d t i c b res evs]: a call of the write
    function whose native operation is [op], made with heap [h] and cells
    [fr], ends in [res] after the calls [evs]. *)
Inductive write_outcome (op : string) (h : gmap loc pyobj)
    (fr : gmap loc (gmap string value)) (f : loc) (ds : list value)
    (d t : value) (i c b : option value) : exn + value → list event → Prop :=
| write_early e :
    resolve i ds 0 = None ∨ resolve c ds 1 = None ∨ resolve b ds 2 = None ∨
    cell fr f "mapr_j_session" = None ∨ cell fr f "buffer_writes" = None →
    write_outcome op h fr f ds d t i c b (inl e) []
| write_buffer_raises js bw e :
    cell fr f "mapr_j_session" = Some js →
    cell fr f "buffer_writes" = Some bw →
    write_outcome op h fr f ds d t i c b (inl e)
      [(CallMethod js "setBufferWrites" [bw], Raises e)]
| write_no_jdf js bw r0 :
    cell fr f "mapr_j_session" = Some js →
    cell fr f "buffer_writes" = Some bw →
    get_attr h d "_jdf" = None →
    write_outcome op h fr f ds d t i c b (inl (AttributeError "_jdf"))
      [(CallMethod js "setBufferWrites" [bw], Returns r0)]
| write_native_raises js bw r0 jdf i' c' b' e :
    cell fr f "mapr_j_session" = Some js →
    cell fr f "buffer_writes" = Some bw →
    get_attr h d "_jdf" = Some jdf →
    resolve i ds 0 = Some i' → resolve c ds 1 = Some c' → resolve b ds 2 = Some b' →
    write_outcome op h fr f ds d t i c b (inl e)
      [(CallMethod js "setBufferWrites" [bw], Returns r0);
       (CallMethod js op [jdf; t; i'; c'; b'], Raises e)]
| write_no_wrapped js bw r0 jdf i' c' b' r :
    cell fr f "mapr_j_session" = Some js →
    cell fr f "buffer_writes" = Some bw →
    get_attr h d "_jdf" = Some jdf →
    resolve i ds 0 = Some i' → resolve c ds 1 = Some c' → resolve b ds 2 = Some b' →
    cell fr f "wrapped" = None →
    write_outcome op h fr f ds d t i c b (inl (NameError "wrapped"))
      [(CallMethod js "setBufferWrites" [bw], Returns r0);
       (CallMethod js op [jdf; t; i'; c'; b'], Returns r)]
| write_wrap_raises js bw r0 jdf i' c' b' r w e :
    cell fr f "mapr_j_session" = Some js →
    cell fr f "buffer_writes" = Some bw →
    get_attr h d "_jdf" = Some jdf →
    resolve i ds 0 = Some i' → resolve c ds 1 = Some c' → resolve b ds 2 = Some b' →
    cell fr f "wrapped" = Some w →
    write_outcome op h fr f ds d t i c b (inl e)
      [(CallMethod js "setBufferWrites" [bw], Returns r0);
       (CallMethod js op [jdf; t; i'; c'; b'], Returns r);
       (NewDataFrame r w, Raises e)]
| write_done js bw r0 jdf i' c' b' r w df :
    cell fr f "mapr_j_session" = Some js →
    cell fr f "buffer_writes" = Some bw →
    get_attr h d "_jdf" = Some jdf →
    resolve i ds 0 = Some i' → resolve c ds 1 = Some c' → resolve b ds 2 = Some b' →
    cell fr f "wrapped" = Some w →
    write_outcome op h fr f ds d t i c b (inr VNone)
      [(CallMethod js "setBufferWrites" [bw], Returns r0);
       (CallMethod js op [jdf; t; i'; c'; b'], Returns r);
       (NewDataFrame r w, Returns df)].

(** ** The reader a load builds, and what construction leaves behind *)

(** The calls that build the reader [rdr]: [read], [format] and the three
    options, each answered with the next receiver. *)
Definition reader_calls (sess t smp bw r0 r1 r2 r3 rdr : value) : list event :=
  [ (GetMember sess "read", Returns r0);
    (CallMethod r0 "format" [VStr "com.mapr.db.spark.sql"], Returns r1);
    (CallMethod r1 "option" [VStr "tableName"; t], Returns r2);
    (CallMethod r2 "option" [VStr "sampleSize"; smp], Returns r3);
    (CallMethod r3 "option" [VStr "bufferWrites"; bw], Returns rdr) ].

(** The cells of an activation of [mapr_session_patch] once the native
    session [js] is built. *)
Definition patch_cells (sess w bw js : value) : gmap string value :=
  <["mapr_j_session" := js]>
    (<["original_session" := sess]>
      (<["wrapped" := w]>
        (<["buffer_writes" := bw]> ∅))).

(** The three attributes of the session after construction with frame [f]. *)
Definition patched (f : loc) (dss dif : value) (old : gmap string value) :
    gmap string value :=
  <["insertToMapRDB" := VFun FInsertToMapRDB f [dif; VBool false; VBool false]]>
    (<["saveToMapRDB" := VFun FSaveToMapRDB f [dif; VBool false; VBool false]]>
      (<["loadFromMapRDB" := VFun FLoadFromMapRDB f [VNone; dss]]> old)).

Definition capability_names : list string :=
  ["loadFromMapRDB"; "saveToMapRDB"; "insertToMapRDB"].

(** ** Error pass-through *)

Definition returned (ev : event) : Prop := ∃ v, ev.2 = Returns v.

(** What a run may show to its caller, given the calls [evs] it made:
    either no call raised, or the last call raised [e], nothing was called
    after it, and the run ends in that same [e]. *)
Inductive passes {A : Type} : exn + A → list event → Prop :=
| passes_quiet r evs :
    Forall returned evs → passes r evs
| passes_raise pre c e :
    Forall returned pre → passes (inl e) (pre ++ [(c, Raises e)]).

Definition transparent {A : Type} (m : M A) : Prop :=
  ∀ st, ∃ evs, trace (m st).2 = trace st ++ evs ∧ passes (m st).1 evs.


(** A bridge error is never handled: when a call raised [e], the run ends
    in [e] and that call is the last one made. *)
Definition propagates {A : Type} (m : M A) : Prop :=
  ∀ st, ∃ evs,
    trace (m st).2 = trace st ++ evs ∧
    ∀ c e, (c, Raises e) ∈ evs →
           (m st).1 = inl e ∧ ∃ pre, evs = pre ++ [(c, Raises e)] ∧ Forall returned pre.

(** Activation [f] of [mapr_session_patch] holds these cells. *)
Definition activation (f : loc) (sess w bw js : value) (st : state) : Prop :=
  frames st !! f = Some (patch_cells sess w bw js).

(** The three closures of activation [f], as construction binds them. *)
Definition capability (f : loc) (dss dif : value) (name : string) : option value :=
  patched f dss dif ∅ !! name.

(** The attributes that write: each is also the name of the native
    operation its function calls. *)
Definition write_names : list string := ["saveToMapRDB"; "insertToMapRDB"].

(** ** Save and insert side by side

    [swap_name] exchanges the names of the two native write operations;
    a trace, a state and a bridge are mirrored by exchanging them in every
    method call. *)
Definition swap_name (x : string) : string :=
  if String.eqb x "saveToMapRDB" then "insertToMapRDB"
  else if String.eqb x "insertToMapRDB" then "saveToMapRDB"
  else x.

Definition swap_call (c : call) : call :=
  match c with
  | CallMethod recv x a => CallMethod recv (swap_name x) a
  | _ => c
  end.

Definition swap_event (ev : event) : event := (swap_call ev.1, ev.2).

Definition swap_state (st : state) : state :=
  {| heap := heap st; frames := frames st; trace := swap_event <$> trace st |}.

Definition swap_bridge (bridge : list event -> call -> outcome) :
    list event -> call -> outcome :=
  fun tr c => bridge (swap_event <$> tr) (swap_call c).

(** [m1] does under the mirrored bridge what [m2] does under the bridge. *)
Definition mirrors {A : Type} (m1 m2 : M A) : Prop :=
  ∀ st, m1 (swap_state st) = ((m2 st).1, swap_state (m2 st).2).

(** ** Sequences of operations on a patched session *)

Inductive op :=
| OpCall (fn : value) (a : args)
| OpAttr (session : value) (name : string) (a : args)
| OpPatch (session wrapped gw : value) (dss dif bw : option value).

Definition run_op (bridge : list event -> call -> outcome) (o : op) : M value :=
  match o with
  | OpCall fn a => call_value bridge fn a
  | OpAttr s x a => call_attr bridge s x a
  | OpPatch s w g dss dif bw => mapr_session_patch bridge s w g dss dif bw
  end.

(** The caller goes on after an operation whatever its result. *)
Definition run_ops (bridge : list event -> call -> outcome) (os : list op)
    (st : state) : state :=
  fold_left (fun st o => (run_op bridge o st).2) os st.

(** ** A concrete world

    A session, a gateway, a data frame, an empty [StructType] and a
    non-empty one, and a bridge that answers every call with a new
    handle. *)

Definition obj (kvs : list (string * value)) (fl : bool) : pyobj :=
  {| attrs := list_to_map kvs; falsy := fl |}.

Definition session0 : value := VObj 1.
Definition gw0 : value := VObj 2.
Definition df0 : value := VObj 3.
Definition empty_struct0 : value := VObj 4.
Definition struct0 : value := VObj 5.
Definition wrapped0 : value := VObj 6.

Definition heap0 : gmap loc pyobj :=
  list_to_map
    [ (1, obj [("_jsparkSession", VObj 50)] false);
      (2, obj [("jvm", VObj 51)] false);
      (3, obj [("_jdf", VObj 52)] false);
      (4, obj [] true);
      (5, obj [] false);
      (6, obj [] false) ].

Definition world0 : state := {| heap := heap0; frames := ∅; trace := [] |}.

Definition bridge0 : list event -> call -> outcome :=
  fun tr _ => Returns (VObj (100 + length tr)).

(** A bridge whose native save fails. *)
Definition bridge1 : list event -> call -> outcome :=
  fun tr c =>
    match c with
    | CallMethod _ x _ =>
        if String.eqb x "saveToMapRDB" then Raises (BridgeError "table not found")
        else bridge0 tr c
    | _ => bridge0 tr c
    end.

(** A bridge whose native session constructor fails. *)
Definition bridge2 : list event -> call -> outcome :=
  fun tr c =>
    match c with
    | Invoke _ _ => Raises (BridgeError "constructor failed")
    | _ => bridge0 tr c
    end.

(** The method names a load may call on a reader. *)
Definition reader_methods : list string := ["format"; "option"; "schema"; "load"].

(** The world after [mapr_session_patch(session0, wrapped0, gw0)]. *)
Definition world1 : state :=
  (mapr_session_patch bridge0 session0 wrapped0 gw0 None None None world0).2.

(** Later operations: a call of [set_buffer_writes] on the first
    activation, a save, and a second construction with buffering off. *)
Definition later_ops0 : list op :=
  [ OpCall (VFun FSetBufferWrites 0 []) (ASetBufferWrites (VBool false));
    OpAttr session0 "saveToMapRDB" (AWrite df0 (VStr "/t") None None None);
    OpPatch session0 wrapped0 gw0 None None (Some (VBool false)) ].

(** ** Error pass-through: every step is transparent *)

Section Transparency.

Variable bridge : list event -> call -> outcome.

Lemma transparent_silent {A} (m : M A) :
  (∀ st, trace (m st).2 = trace st) → transparent m.
Proof.
  intros Hm st. exists []. rewrite app_nil_r. split; [apply Hm|].
  apply passes_quiet, Forall_nil_2.
Qed.

Lemma transparent_ret {A} (a : A) : transparent (ret a).
Proof. by apply transparent_silent. Qed.

Lemma transparent_raise {A} e : transparent (@raise A e).
Proof. by apply transparent_silent. Qed.

Lemma transparent_truth v : transparent (truth v).
Proof. by apply transparent_silent. Qed.

Lemma transparent_getattr o x : transparent (getattr o x).
Proof.
  apply transparent_silent. intros st. unfold getattr.
  by destruct (get_attr (heap st) o x).
Qed.

Lemma transparent_setattr o x v : transparent (setattr o x v).
Proof.
  apply transparent_silent. intros st. unfold setattr.
  destruct o; try done. by destruct (heap st !! l).
Qed.

Lemma transparent_new_frame cells : transparent (new_frame cells).
Proof. by apply transparent_silent. Qed.

Lemma transparent_read_cell f x : transparent (read_cell f x).
Proof.
  apply transparent_silent. intros st. unfold read_cell.
  by destruct (cell (frames st) f x).
Qed.

Lemma transparent_write_cell f x v : transparent (write_cell f x v).
Proof.
  apply transparent_silent. intros st. unfold write_cell.
  by destruct (frames st !! f).
Qed.

Lemma transparent_bind_arg a ds i : transparent (bind_arg a ds i).
Proof.
  unfold bind_arg. destruct (resolve a ds i);
    [apply transparent_ret | apply transparent_raise].
Qed.

Lemma transparent_ext c : transparent (ext bridge c).
Proof.
  intros st. unfold ext.
  destruct (bridge (trace st) c) as [v|e] eqn:Hb; cbn.
  - exists [(c, Returns v)]. split; [done|].
    apply passes_quiet, Forall_singleton. by exists v.
  - exists [(c, Raises e)]. split; [done|].
    apply (passes_raise []), Forall_nil_2.
Qed.

(** Sequencing has no handler: an error of the first part ends the run. *)
Lemma transparent_bind {A B} (m : M A) (k : A → M B) :
  transparent m → (∀ a, transparent (k a)) → transparent (bind m k).
Proof.
  intros Hm Hk st. unfold bind.
  destruct (Hm st) as (evs1 & Ht1 & Hp1).
  destruct (m st) as [[e|a] st1] eqn:Hrun; cbn in *.
  - exists evs1. split; [done|]. inversion Hp1; subst.
    + by apply passes_quiet.
    + by apply passes_raise.
  - destruct (Hk a st1) as (evs2 & Ht2 & Hp2).
    exists (evs1 ++ evs2). rewrite Ht2, Ht1, app_assoc. split; [done|].
    assert (Forall returned evs1) as Hq.
    { inversion Hp1; subst; done. }
    inversion Hp2; subst.
    + apply passes_quiet, Forall_app; done.
    + rewrite app_assoc. apply passes_raise, Forall_app; done.
Qed.

Lemma transparent_assign ns f x v locals : transparent (assign ns f x v locals).
Proof.
  unfold assign. case_bool_decide.
  - apply transparent_bind; [apply transparent_write_cell|].
    intros. apply transparent_ret.
  - apply transparent_ret.
Qed.

End Transparency.

Ltac transparency :=
  repeat first
    [ apply transparent_bind; [|intros]
    | apply transparent_ret | apply transparent_raise | apply transparent_ext
    | apply transparent_truth | apply transparent_getattr
    | apply transparent_setattr | apply transparent_new_frame
    | apply transparent_read_cell | apply transparent_write_cell
    | apply transparent_bind_arg | apply transparent_assign
    | match goal with |- transparent (if ?b then _ else _) => destruct b end ].

Lemma transparent_set_buffer_writes f bw :
  transparent (set_buffer_writes f bw).
Proof. unfold set_buffer_writes. transparency. Qed.

Lemma transparent_loadFromMapRDB bridge f ds t s n :
  transparent (loadFromMapRDB bridge f ds t s n).
Proof. unfold loadFromMapRDB. transparency. Qed.

Lemma transparent_saveToMapRDB bridge f ds d t i c b :
  transparent (saveToMapRDB bridge f ds d t i c b).
Proof. unfold saveToMapRDB. transparency. Qed.

Lemma transparent_insertToMapRDB bridge f ds d t i c b :
  transparent (insertToMapRDB bridge f ds d t i c b).
Proof. unfold insertToMapRDB. transparency. Qed.

Lemma transparent_mapr_session_patch bridge s w g a b c :
  transparent (mapr_session_patch bridge s w g a b c).
Proof. unfold mapr_session_patch. transparency. Qed.

Lemma transparent_call_value bridge fn a : transparent (call_value bridge fn a).
Proof.
  destruct fn as [| | | | | |[] f ds]; destruct a; cbn [call_value];
    lazymatch goal with
    | |- transparent (raise _) => apply transparent_raise
    | |- transparent (set_buffer_writes _ _) => apply transparent_set_buffer_writes
    | |- transparent (loadFromMapRDB _ _ _ _ _ _) => apply transparent_loadFromMapRDB
    | |- transparent (saveToMapRDB _ _ _ _ _ _ _ _) => apply transparent_saveToMapRDB
    | |- transparent (insertToMapRDB _ _ _ _ _ _ _ _) => apply transparent_insertToMapRDB
    end.
Qed.

Lemma transparent_call_attr bridge s x a : transparent (call_attr bridge s x a).
Proof.
  unfold call_attr. apply transparent_bind; [apply transparent_getattr|].
  intros. apply transparent_call_value.
Qed.

Lemma passes_raised {A} (r : exn + A) evs c e :
  passes r evs → (c, Raises e) ∈ evs →
  r = inl e ∧ ∃ pre, evs = pre ++ [(c, Raises e)] ∧ Forall returned pre.
Proof.
  intros Hp Hin. inversion Hp as [r' evs' Hall|pre c' e' Hall]; subst.
  - rewrite Forall_forall in Hall. destruct (Hall _ Hin) as [v Hv]. done.
  - apply elem_of_app in Hin as [Hin|Hin].
    + rewrite Forall_forall in Hall. destruct (Hall _ Hin) as [v Hv]. done.
    + apply list_elem_of_singleton in Hin. injection Hin as -> ->. eauto.
Qed.

(** ** Running the inner functions *)

Ltac unfold_run :=
  unfold bind, bind_arg, read_cell, write_cell, getattr, truth, ext, ret, raise;
  cbv zeta.

(** Case analysis on every lookup and every answer of the bridge, in the
    order the code meets them. *)
Ltac crunch :=
  repeat (cbn beta iota delta [fst snd heap frames trace log set_heap set_frames];
          first
            [ rewrite lookup_insert_eq
            | match goal with
              | H : ?a = _ |- context [match ?a with _ => _ end] => rewrite H
              end
            | match goal with
              | |- context [match ?x with _ => _ end] =>
                  lazymatch x with
                  | context [match _ with _ => _ end] => fail
                  | _ => destruct x eqn:?
                  end
              end ]).

Ltac tidy_trace :=
  cbn [fst snd heap frames trace log set_heap set_frames];
  rewrite <- ?app_assoc; cbn [app].

Lemma saveToMapRDB_outcome bridge f ds d t i c b st :
  heap (saveToMapRDB bridge f ds d t i c b st).2 = heap st ∧
  frames (saveToMapRDB bridge f ds d t i c b st).2 = frames st ∧
  ∃ evs, trace (saveToMapRDB bridge f ds d t i c b st).2 = trace st ++ evs ∧
         write_outcome "saveToMapRDB" (heap st) (frames st) f ds d t i c b
           (saveToMapRDB bridge f ds d t i c b st).1 evs.
Proof.
  unfold saveToMapRDB. unfold_run. crunch; tidy_trace;
    (split; [done|]; split; [done|]); eexists;
    (split; [first [reflexivity | symmetry; apply app_nil_r]|]);
    simplify_eq; solve [econstructor; eauto 10].
Qed.

Lemma insertToMapRDB_outcome bridge f ds d t i c b st :
  heap (insertToMapRDB bridge f ds d t i c b st).2 = heap st ∧
  frames (insertToMapRDB bridge f ds d t i c b st).2 = frames st ∧
  ∃ evs, trace (insertToMapRDB bridge f ds d t i c b st).2 = trace st ++ evs ∧
         write_outcome "insertToMapRDB" (heap st) (frames st) f ds d t i c b
           (insertToMapRDB bridge f ds d t i c b st).1 evs.
Proof.
  unfold insertToMapRDB. unfold_run. crunch; tidy_trace;
    (split; [done|]; split; [done|]); eexists;
    (split; [first [reflexivity | symmetry; apply app_nil_r]|]);
    simplify_eq; solve [econstructor; eauto 10].
Qed.

Lemma loadFromMapRDB_inr bridge f ds t s n st v st' :
  loadFromMapRDB bridge f ds t s n st = (inr v, st') →
  ∃ sch smp sess bw r0 r1 r2 r3 rdr,
    resolve s ds 0 = Some sch ∧ resolve n ds 1 = Some smp ∧
    cell (frames st) f "original_session" = Some sess ∧
    cell (frames st) f "buffer_writes" = Some bw ∧
    heap st' = heap st ∧ frames st' = frames st ∧
    ∃ applied,
      trace st' = trace st ++ reader_calls sess t smp bw r0 r1 r2 r3 rdr
                    ++ applied ++ [(CallMethod rdr "load" [], Returns v)] ∧
      if truthy (heap st) sch
      then ∃ rs, applied = [(CallMethod rdr "schema" [sch], Returns rs)]
      else applied = [].
Proof.
  unfold loadFromMapRDB. unfold_run. crunch; intros [= <- <-];
    do 9 eexists; tidy_trace; repeat (split; [done|]);
    eexists; unfold reader_calls; cbn [app];
    (split; [|match goal with
               | H : truthy _ _ = _ |- _ => rewrite H
               end; eauto]); done.
Qed.

Lemma set_buffer_writes_run f bw st : set_buffer_writes f bw st = (inr VNone, st).
Proof. reflexivity. Qed.

Lemma patch_cells_lookup sess w bw js :
  patch_cells sess w bw js !! "mapr_j_session" = Some js ∧
  patch_cells sess w bw js !! "original_session" = Some sess ∧
  patch_cells sess w bw js !! "wrapped" = Some w ∧
  patch_cells sess w bw js !! "buffer_writes" = Some bw.
Proof. unfold patch_cells. by simplify_map_eq. Qed.

Lemma mapr_session_patch_inr bridge sess w gw a b c st r st' :
  mapr_session_patch bridge sess w gw a b c st = (inr r, st') →
  r = VNone ∧
  ∃ l ob jvm imp cls jss js,
    sess = VObj l ∧ heap st !! l = Some ob ∧
    get_attr (heap st) gw "jvm" = Some jvm ∧
    attrs ob !! "_jsparkSession" = Some jss ∧
    frames st' = <[fresh (dom (frames st)) :=
                     patch_cells sess w (default (VBool true) c) js]> (frames st) ∧
    heap st' = <[l := {| attrs := patched (fresh (dom (frames st)))
                                    (default (VFloat (1000 # 1)%Q) a)
                                    (default (VStr "_id") b) (attrs ob);
                         falsy := falsy ob |}]> (heap st) ∧
    trace st' = trace st ++
      [ (JavaImport jvm "com.mapr.db.spark.sql.api.java.MapRDBJavaSession",
         Returns imp);
        (GetMember jvm "MapRDBJavaSession", Returns cls);
        (Invoke cls [jss], Returns js) ].
Proof.
  unfold mapr_session_patch, new_frame, setattr. unfold_run.
  crunch; intros [= <- <-]; (split; [done|]).
  match goal with
  | H : get_attr (heap st) (VObj ?l) "_jsparkSession" = Some _,
    H' : heap st !! ?l = Some _ |- _ =>
      cbn [get_attr] in H; rewrite H' in H; cbn in H
  end.
  do 7 eexists. cbn [heap frames trace set_heap set_frames log fst snd].
  rewrite !insert_insert_eq. tidy_trace.
  unfold patched, patch_cells.
  repeat (split; [done|]). done.
Qed.

Lemma transparent_propagates {A} (m : M A) : transparent m → propagates m.
Proof.
  intros Hm st. destruct (Hm st) as (evs & Ht & Hp). exists evs.
  split; [done|]. intros c e Hin. by eapply passes_raised.
Qed.

(** C7: an error raised by any call into the bridge (class lookup, native
    construction, reader calls, native write, wrapper construction) ends
    the operation with that same error, and no further call is made. *)
Theorem errors_propagate_unmodified bridge :
  (∀ s w g a b c, propagates (mapr_session_patch bridge s w g a b c)) ∧
  (∀ f ds t s n, propagates (loadFromMapRDB bridge f ds t s n)) ∧
  (∀ f ds d t i c b, propagates (saveToMapRDB bridge f ds d t i c b)) ∧
  (∀ f ds d t i c b, propagates (insertToMapRDB bridge f ds d t i c b)) ∧
  (∀ s x a, propagates (call_attr bridge s x a)).
Proof.
  repeat split; intros; apply transparent_propagates.
  - apply transparent_mapr_session_patch.
  - apply transparent_loadFromMapRDB.
  - apply transparent_saveToMapRDB.
  - apply transparent_insertToMapRDB.
  - apply transparent_call_attr.
Qed.

(** ** What construction installs *)

Lemma capability_load f dss dif :
  capability f dss dif "loadFromMapRDB" = Some (VFun FLoadFromMapRDB f [VNone; dss]).
Proof. unfold capability, patched. by simplify_map_eq. Qed.

Lemma capability_save f dss dif :
  capability f dss dif "saveToMapRDB" =
  Some (VFun FSaveToMapRDB f [dif; VBool false; VBool false]).
Proof. unfold capability, patched. by simplify_map_eq. Qed.

Lemma capability_insert f dss dif :
  capability f dss dif "insertToMapRDB" =
  Some (VFun FInsertToMapRDB f [dif; VBool false; VBool false]).
Proof. unfold capability, patched. by simplify_map_eq. Qed.

Lemma patched_lookup f dss dif old x :
  patched f dss dif old !! x =
  match capability f dss dif x with Some v => Some v | None => old !! x end.
Proof.
  unfold capability, patched.
  destruct (decide (x = "insertToMapRDB")) as [->|]; [by simplify_map_eq|].
  destruct (decide (x = "saveToMapRDB")) as [->|]; [by simplify_map_eq|].
  destruct (decide (x = "loadFromMapRDB")) as [->|]; by simplify_map_eq.
Qed.

Lemma capability_names_spec f dss dif x :
  x ∈ capability_names ↔ is_Some (capability f dss dif x).
Proof.
  unfold capability, patched, capability_names. split.
  - intros Hx. repeat (apply elem_of_cons in Hx as [->|Hx]; [by simplify_map_eq|]).
    by apply elem_of_nil in Hx.
  - intros [v Hv].
    destruct (decide (x = "insertToMapRDB")) as [->|]; [set_solver|].
    destruct (decide (x = "saveToMapRDB")) as [->|]; [set_solver|].
    destruct (decide (x = "loadFromMapRDB")) as [->|]; [set_solver|].
    by simplify_map_eq.
Qed.

Lemma activation_cells f sess w bw js st :
  activation f sess w bw js st →
  cell (frames st) f "mapr_j_session" = Some js ∧
  cell (frames st) f "original_session" = Some sess ∧
  cell (frames st) f "wrapped" = Some w ∧
  cell (frames st) f "buffer_writes" = Some bw.
Proof.
  unfold activation, cell. intros ->. cbn. apply patch_cells_lookup.
Qed.

(** A successful construction: a new activation, and the session's three
    attributes bound to its closures. *)
Lemma mapr_session_patch_installs bridge sess w gw a b c st r st' :
  mapr_session_patch bridge sess w gw a b c st = (inr r, st') →
  ∃ js, activation (fresh (dom (frames st))) sess w (default (VBool true) c) js st' ∧
        ∀ x v, capability (fresh (dom (frames st)))
                 (default (VFloat (1000 # 1)%Q) a) (default (VStr "_id") b) x = Some v →
               get_attr (heap st') sess x = Some v.
Proof.
  intros H. apply mapr_session_patch_inr in H
    as (_ & l & ob & jvm & imp & cls & jss & js & -> & Hl & _ & _ & Hfr & Hh & _).
  exists js. split.
  - unfold activation. rewrite Hfr. apply lookup_insert_eq.
  - intros x v Hx. cbn. rewrite Hh, lookup_insert_eq. cbn.
    by rewrite patched_lookup, Hx.
Qed.

(** C1 (amended): after construction, a successful load builds a reader
    with exactly the three options table name, sample size (the argument
    when given, else the default captured at construction) and the captured
    write-buffering flag, applies the schema exactly when the schema value
    is true in the sense of [if schema:], and returns what [load] returns. *)
Theorem loadFromMapRDB_reader bridge sess w gw dss dif bwa st0 r st1 t s n v st2 :
  mapr_session_patch bridge sess w gw dss dif bwa st0 = (inr r, st1) →
  call_attr bridge sess "loadFromMapRDB" (ALoad t s n) st1 = (inr v, st2) →
  ∃ r0 r1 r2 r3 rdr applied,
    trace st2 =
      trace st1
      ++ reader_calls sess t (default (default (VFloat (1000 # 1)%Q) dss) n)
           (default (VBool true) bwa) r0 r1 r2 r3 rdr
      ++ applied
      ++ [(CallMethod rdr "load" [], Returns v)] ∧
    if truthy (heap st1) (default VNone s)
    then ∃ rs, applied = [(CallMethod rdr "schema" [default VNone s], Returns rs)]
    else applied = [].
Proof.
  intros Hp Hc. apply mapr_session_patch_installs in Hp as (js & Hact & Hattr).
  apply activation_cells in Hact as (_ & Hsess & _ & Hbw).
  specialize (Hattr _ _ (capability_load _ _ _)).
  unfold call_attr, bind, getattr in Hc. rewrite Hattr in Hc. cbn [call_value] in Hc.
  apply loadFromMapRDB_inr in Hc
    as (sch & smp & sess' & bw & r0 & r1 & r2 & r3 & rdr
        & Hsch & Hsmp & Hs' & Hb' & _ & _ & applied & Htr & Happ).
  rewrite Hsess in Hs'. rewrite Hbw in Hb'. simplify_eq.
  assert (sch = default VNone s) as -> by (destruct s; cbn in Hsch; by simplify_eq).
  assert (smp = default (default (VFloat (1000 # 1)%Q) dss) n) as ->
    by (destruct n; cbn in Hsmp; by simplify_eq).
  by exists r0, r1, r2, r3, rdr, applied.
Qed.

Lemma loadFromMapRDB_reader_witness :
  ∃ r0 r1 r2 r3 rdr applied,
    trace (call_attr bridge0 session0 "loadFromMapRDB"
             (ALoad (VStr "/t") (Some struct0) (Some (VInt 500))) world1).2 =
      trace world1
      ++ reader_calls session0 (VStr "/t") (VInt 500) (VBool true) r0 r1 r2 r3 rdr
      ++ applied
      ++ [(CallMethod rdr "load" [], Returns (VObj 109))] ∧
    if truthy (heap world1) struct0
    then ∃ rs, applied = [(CallMethod rdr "schema" [struct0], Returns rs)]
    else applied = [].
Proof.
  apply (loadFromMapRDB_reader bridge0 session0 wrapped0 gw0 None None None
           world0 VNone world1 (VStr "/t") (Some struct0) (Some (VInt 500))).
  - vm_compute. reflexivity.
  - vm_compute. reflexivity.
Defined.

(** C1, as stated, fails: an empty [StructType] (its [__len__] is 0) and
    the empty string are schemas that were supplied, yet [if schema:] is
    false for them and the reader is loaded without any call of
    [schema]. *)
Lemma loadFromMapRDB_skips_empty_schema :
  ((call_attr bridge0 session0 "loadFromMapRDB"
      (ALoad (VStr "/t") (Some empty_struct0) None) world1).1 = inr (VObj 108) ∧
   empty_struct0 ≠ VNone ∧
   ∀ rdr a o,
     (CallMethod rdr "schema" a, o) ∉
       trace (call_attr bridge0 session0 "loadFromMapRDB"
                (ALoad (VStr "/t") (Some empty_struct0) None) world1).2) ∧
  ((call_attr bridge0 session0 "loadFromMapRDB"
      (ALoad (VStr "/t") (Some (VStr "")) None) world1).1 = inr (VObj 108) ∧
   ∀ rdr a o,
     (CallMethod rdr "schema" a, o) ∉
       trace (call_attr bridge0 session0 "loadFromMapRDB"
                (ALoad (VStr "/t") (Some (VStr "")) None) world1).2).
Proof.
  split; [split; [by vm_compute|split; [done|]]|split; [by vm_compute|]];
    intros rdr a o Hin; vm_compute in Hin;
    repeat (apply elem_of_cons in Hin as [Hin|Hin]; [discriminate|]);
    by apply elem_of_nil in Hin.
Qed.

(** ** Writes *)

Lemma write_outcome_native op h fr f ds d t i c b res evs recv a o :
  write_outcome op h fr f ds d t i c b res evs →
  op ≠ "setBufferWrites" →
  (CallMethod recv op a, o) ∈ evs →
  ∃ jdf i' c' b',
    get_attr h d "_jdf" = Some jdf ∧
    resolve i ds 0 = Some i' ∧ resolve c ds 1 = Some c' ∧ resolve b ds 2 = Some b' ∧
    a = [jdf; t; i'; c'; b'].
Proof.
  intros Hw Hop Hin.
  inversion Hw; subst;
    repeat (apply elem_of_cons in Hin as [Hin|Hin];
            [simplify_eq; eauto 10|]);
    by apply elem_of_nil in Hin.
Qed.

Lemma write_outcome_inr op h fr f ds d t i c b v evs :
  write_outcome op h fr f ds d t i c b (inr v) evs →
  v = VNone ∧
  ∃ js bw r0 a r w df,
    cell fr f "mapr_j_session" = Some js ∧
    cell fr f "buffer_writes" = Some bw ∧
    cell fr f "wrapped" = Some w ∧
    evs = [ (CallMethod js "setBufferWrites" [bw], Returns r0);
            (CallMethod js op a, Returns r);
            (NewDataFrame r w, Returns df) ].
Proof. intros Hw. inversion Hw; subst. split; [done|]. eauto 12. Qed.

Lemma write_outcome_order op h fr f ds d t i c b res evs pre recv a o post :
  write_outcome op h fr f ds d t i c b res evs →
  op ≠ "setBufferWrites" →
  evs = pre ++ (CallMethod recv op a, o) :: post →
  ∃ js bw r0 pre',
    cell fr f "mapr_j_session" = Some js ∧
    cell fr f "buffer_writes" = Some bw ∧
    pre = (CallMethod js "setBufferWrites" [bw], Returns r0) :: pre'.
Proof.
  intros Hw Hop Hev.
  inversion Hw; subst;
    repeat (destruct pre as [|? pre]; simplify_eq/=; eauto 10).
Qed.

(** A write capability called through the session right after
    construction runs the write function of the new activation. *)
Lemma call_attr_write bridge sess w gw dss dif bwa st0 r st1 name d t i c b :
  mapr_session_patch bridge sess w gw dss dif bwa st0 = (inr r, st1) →
  name ∈ write_names →
  heap (call_attr bridge sess name (AWrite d t i c b) st1).2 = heap st1 ∧
  frames (call_attr bridge sess name (AWrite d t i c b) st1).2 = frames st1 ∧
  ∃ evs,
    trace (call_attr bridge sess name (AWrite d t i c b) st1).2 = trace st1 ++ evs ∧
    write_outcome name (heap st1) (frames st1) (fresh (dom (frames st0)))
      [default (VStr "_id") dif; VBool false; VBool false] d t i c b
      (call_attr bridge sess name (AWrite d t i c b) st1).1 evs.
Proof.
  intros Hp Hn. apply mapr_session_patch_installs in Hp as (js & _ & Hattr).
  unfold write_names in Hn.
  apply elem_of_cons in Hn as [->|Hn]; [|apply list_elem_of_singleton in Hn as ->].
  - specialize (Hattr _ _ (capability_save _ _ _)).
    unfold call_attr, bind, getattr. rewrite Hattr. cbn [call_value].
    apply saveToMapRDB_outcome.
  - specialize (Hattr _ _ (capability_insert _ _ _)).
    unfold call_attr, bind, getattr. rewrite Hattr. cbn [call_value].
    apply insertToMapRDB_outcome.
Qed.

Lemma write_names_not_setter name : name ∈ write_names → name ≠ "setBufferWrites".
Proof.
  unfold write_names. intros Hn ->.
  repeat (apply elem_of_cons in Hn as [Hn|Hn]; [discriminate|]).
  by apply elem_of_nil in Hn.
Qed.

(** With the cells and the parameters bound and a data frame that has its
    [_jdf], a write always pushes the flag, and as soon as that call has
    returned it calls the native operation with the resolved arguments. *)
Lemma write_outcome_reaches op h fr f ds d t i c b res evs js bw jdf i' c' b' :
  write_outcome op h fr f ds d t i c b res evs →
  cell fr f "mapr_j_session" = Some js →
  cell fr f "buffer_writes" = Some bw →
  resolve i ds 0 = Some i' → resolve c ds 1 = Some c' → resolve b ds 2 = Some b' →
  get_attr h d "_jdf" = Some jdf →
  ∃ o rest,
    evs = (CallMethod js "setBufferWrites" [bw], o) :: rest ∧
    ∀ r0, o = Returns r0 →
          ∃ o' rest', rest = (CallMethod js op [jdf; t; i'; c'; b'], o') :: rest'.
Proof.
  intros Hw Hjs Hbw Hi Hc Hb Hjdf.
  inversion Hw; subst; simplify_eq.
  - match goal with
    | H : _ ∨ _ |- _ => destruct H as [?|[?|[?|[?|?]]]]; congruence
    end.
  - do 2 eexists. split; [reflexivity|]. intros r0 [=].
  - do 2 eexists. split; [reflexivity|]. intros ? _. eauto.
  - do 2 eexists. split; [reflexivity|]. intros ? _. eauto.
  - do 2 eexists. split; [reflexivity|]. intros ? _. eauto.
  - do 2 eexists. split; [reflexivity|]. intros ? _. eauto.
Qed.

(** C2: after construction, save and insert hand the native write the
    identifier field given by the caller, or else the default captured at
    construction (itself ["_id"] unless given), and the create-table and
    bulk-insert flags, each [False] unless given. Every call of a data
    frame that has its [_jdf] pushes the buffering flag and, once that call
    has returned, makes the native call with exactly these arguments; no
    native call of the operation carries other arguments; a call that
    succeeds has made that native call. *)
Theorem write_arguments_resolved bridge sess w gw dss dif bwa st0 r st1 name d t i c b :
  mapr_session_patch bridge sess w gw dss dif bwa st0 = (inr r, st1) →
  name ∈ write_names →
  ∃ evs,
    trace (call_attr bridge sess name (AWrite d t i c b) st1).2 = trace st1 ++ evs ∧
    (∀ recv a o, (CallMethod recv name a, o) ∈ evs →
       ∃ jdf, get_attr (heap st1) d "_jdf" = Some jdf ∧
              a = [ jdf; t;
                    default (default (VStr "_id") dif) i;
                    default (VBool false) c;
                    default (VBool false) b ]) ∧
    (∀ v, (call_attr bridge sess name (AWrite d t i c b) st1).1 = inr v →
          ∃ recv a o, (CallMethod recv name a, o) ∈ evs) ∧
    (∀ jdf, get_attr (heap st1) d "_jdf" = Some jdf →
       ∃ js o rest,
         evs = (CallMethod js "setBufferWrites" [default (VBool true) bwa], o) :: rest ∧
         ∀ r0, o = Returns r0 →
           ∃ o' rest',
             rest = (CallMethod js name
                       [ jdf; t;
                         default (default (VStr "_id") dif) i;
                         default (VBool false) c;
                         default (VBool false) b ], o') :: rest').
Proof.
  intros Hp Hn.
  destruct (call_attr_write _ _ _ _ _ _ _ _ _ _ _ d t i c b Hp Hn)
    as (_ & _ & evs & Htr & Hw).
  exists evs. split; [done|]. split; [|split].
  - intros recv a o Hin.
    destruct (write_outcome_native _ _ _ _ _ _ _ _ _ _ _ _ _ _ _ Hw
                (write_names_not_setter _ Hn) Hin)
      as (jdf & i' & c' & b' & Hj & Hi & Hc & Hb & ->).
    exists jdf. split; [done|].
    destruct i, c, b; cbn in Hi, Hc, Hb; by simplify_eq.
  - intros v Hv. rewrite Hv in Hw.
    apply write_outcome_inr in Hw
      as (_ & js & bw & r0 & a & r' & w' & df & _ & _ & _ & ->).
    exists js, a, (Returns r'). apply elem_of_cons. right. apply elem_of_cons. by left.
  - intros jdf Hjdf.
    apply mapr_session_patch_installs in Hp as (js & Hact & _).
    apply activation_cells in Hact as (Hjs & _ & _ & Hbw).
    exists js.
    eapply (write_outcome_reaches _ _ _ _ _ _ _ _ _ _ _ _ _ _ _
              (default (default (VStr "_id") dif) i)
              (default (VBool false) c) (default (VBool false) b) Hw Hjs Hbw);
      [by destruct i | by destruct c | by destruct b | exact Hjdf].
Qed.

(** The witness also runs the two calls of the specification to their end:
    with [custom_id] given the native save receives it, with no identifier
    field given it receives ["_id"]; both flags are [False]. *)
Lemma write_arguments_resolved_witness :
  (∃ evs,
    trace (call_attr bridge0 session0 "saveToMapRDB"
             (AWrite df0 (VStr "/t") (Some (VStr "custom_id")) None None) world1).2
      = trace world1 ++ evs ∧
    (∀ recv a o, (CallMethod recv "saveToMapRDB" a, o) ∈ evs →
       ∃ jdf, get_attr (heap world1) df0 "_jdf" = Some jdf ∧
              a = [ jdf; VStr "/t";
                    default (default (VStr "_id") None) (Some (VStr "custom_id"));
                    default (VBool false) None;
                    default (VBool false) None ]) ∧
    (∀ v, (call_attr bridge0 session0 "saveToMapRDB"
             (AWrite df0 (VStr "/t") (Some (VStr "custom_id")) None None) world1).1
          = inr v →
          ∃ recv a o, (CallMethod recv "saveToMapRDB" a, o) ∈ evs) ∧
    (∀ jdf, get_attr (heap world1) df0 "_jdf" = Some jdf →
       ∃ js o rest,
         evs = (CallMethod js "setBufferWrites" [default (VBool true) None], o) :: rest ∧
         ∀ r0, o = Returns r0 →
           ∃ o' rest',
             rest = (CallMethod js "saveToMapRDB"
                       [ jdf; VStr "/t";
                         default (default (VStr "_id") None) (Some (VStr "custom_id"));
                         default (VBool false) None;
                         default (VBool false) None ], o') :: rest')) ∧
  call_attr bridge0 session0 "saveToMapRDB"
    (AWrite df0 (VStr "/t") (Some (VStr "custom_id")) None None) world1
  = (inr VNone,
     log (NewDataFrame (VObj 104) wrapped0, Returns (VObj 105))
       (log (CallMethod (VObj 102) "saveToMapRDB"
               [VObj 52; VStr "/t"; VStr "custom_id"; VBool false; VBool false],
             Returns (VObj 104))
          (log (CallMethod (VObj 102) "setBufferWrites" [VBool true], Returns (VObj 103))
             world1))) ∧
  call_attr bridge0 session0 "insertToMapRDB"
    (AWrite df0 (VStr "/t") None None None) world1
  = (inr VNone,
     log (NewDataFrame (VObj 104) wrapped0, Returns (VObj 105))
       (log (CallMethod (VObj 102) "insertToMapRDB"
               [VObj 52; VStr "/t"; VStr "_id"; VBool false; VBool false],
             Returns (VObj 104))
          (log (CallMethod (VObj 102) "setBufferWrites" [VBool true], Returns (VObj 103))
             world1))).
Proof.
  split; [|split].
  - apply (write_arguments_resolved bridge0 session0 wrapped0 gw0 None None None
             world0 VNone world1 "saveToMapRDB").
    + vm_compute. reflexivity.
    + unfold write_names. apply elem_of_cons. left. reflexivity.
  - vm_compute. reflexivity.
  - vm_compute. reflexivity.
Defined.

Lemma write_outcome_starts op h fr f ds d t i c b res evs js bw :
  write_outcome op h fr f ds d t i c b res evs →
  cell fr f "mapr_j_session" = Some js →
  cell fr f "buffer_writes" = Some bw →
  is_Some (resolve i ds 0) → is_Some (resolve c ds 1) → is_Some (resolve b ds 2) →
  ∃ o rest, evs = (CallMethod js "setBufferWrites" [bw], o) :: rest.
Proof.
  intros Hw Hjs Hbw [i' Hi] [c' Hc] [b' Hb].
  inversion Hw; subst; simplify_eq; eauto.
  match goal with
  | H : _ ∨ _ |- _ => destruct H as [?|[?|[?|[?|?]]]]; congruence
  end.
Qed.

(** C3: every call of save and of insert on an activation with its cells
    (and with its three defaulted parameters bound) begins by calling
    [setBufferWrites] with the captured flag; and in every call whatever,
    a native write is preceded by that call, which has returned. *)
Theorem buffering_pushed_before_write bridge f ds d t i c b st :
  (∃ evs,
     trace (saveToMapRDB bridge f ds d t i c b st).2 = trace st ++ evs ∧
     (∀ js bw,
        cell (frames st) f "mapr_j_session" = Some js →
        cell (frames st) f "buffer_writes" = Some bw →
        is_Some (resolve i ds 0) → is_Some (resolve c ds 1) → is_Some (resolve b ds 2) →
        ∃ o rest, evs = (CallMethod js "setBufferWrites" [bw], o) :: rest) ∧
     ∀ pre recv a o post,
       evs = pre ++ (CallMethod recv "saveToMapRDB" a, o) :: post →
       ∃ js bw r0 pre',
         cell (frames st) f "mapr_j_session" = Some js ∧
         cell (frames st) f "buffer_writes" = Some bw ∧
         pre = (CallMethod js "setBufferWrites" [bw], Returns r0) :: pre') ∧
  (∃ evs,
     trace (insertToMapRDB bridge f ds d t i c b st).2 = trace st ++ evs ∧
     (∀ js bw,
        cell (frames st) f "mapr_j_session" = Some js →
        cell (frames st) f "buffer_writes" = Some bw →
        is_Some (resolve i ds 0) → is_Some (resolve c ds 1) → is_Some (resolve b ds 2) →
        ∃ o rest, evs = (CallMethod js "setBufferWrites" [bw], o) :: rest) ∧
     ∀ pre recv a o post,
       evs = pre ++ (CallMethod recv "insertToMapRDB" a, o) :: post →
       ∃ js bw r0 pre',
         cell (frames st) f "mapr_j_session" = Some js ∧
         cell (frames st) f "buffer_writes" = Some bw ∧
         pre = (CallMethod js "setBufferWrites" [bw], Returns r0) :: pre').
Proof.
  split.
  - destruct (saveToMapRDB_outcome bridge f ds d t i c b st) as (_ & _ & evs & Htr & Hw).
    exists evs. split; [done|]. split.
    + intros js bw. by eapply write_outcome_starts.
    + intros pre recv a o post Hev. by eapply write_outcome_order.
  - destruct (insertToMapRDB_outcome bridge f ds d t i c b st) as (_ & _ & evs & Htr & Hw).
    exists evs. split; [done|]. split.
    + intros js bw. by eapply write_outcome_starts.
    + intros pre recv a o post Hev. by eapply write_outcome_order.
Qed.

(** A save on the concrete world: the flag is pushed, the native save is
    called with the defaults, the wrapper is built, [None] comes back. *)
Example saveToMapRDB_on_world1 :
  call_attr bridge0 session0 "saveToMapRDB" (AWrite df0 (VStr "/t") None None None) world1
  = (inr VNone,
     log (NewDataFrame (VObj 104) wrapped0, Returns (VObj 105))
       (log (CallMethod (VObj 102) "saveToMapRDB"
               [VObj 52; VStr "/t"; VStr "_id"; VBool false; VBool false],
             Returns (VObj 104))
          (log (CallMethod (VObj 102) "setBufferWrites" [VBool true], Returns (VObj 103))
             world1))).
Proof. by vm_compute. Qed.

(** The same save when the native call fails: the error comes back as it
    is, and no wrapper is built. *)
Example saveToMapRDB_native_failure :
  call_attr bridge1 session0 "saveToMapRDB" (AWrite df0 (VStr "/t") None None None) world1
  = (inl (BridgeError "table not found"),
     log (CallMethod (VObj 102) "saveToMapRDB"
            [VObj 52; VStr "/t"; VStr "_id"; VBool false; VBool false],
          Raises (BridgeError "table not found"))
       (log (CallMethod (VObj 102) "setBufferWrites" [VBool true], Returns (VObj 103))
          world1)).
Proof. by vm_compute. Qed.

(** C5: a successful save or insert returns [None]; the DataFrame built
    around the native call's result is the last thing the call does, and
    it is not returned. *)
Theorem write_returns_none bridge sess w gw dss dif bwa st0 r st1 name d t i c b v st2 :
  mapr_session_patch bridge sess w gw dss dif bwa st0 = (inr r, st1) →
  name ∈ write_names →
  call_attr bridge sess name (AWrite d t i c b) st1 = (inr v, st2) →
  v = VNone ∧
  ∃ js r0 a res df,
    trace st2 =
      trace st1 ++
      [ (CallMethod js "setBufferWrites" [default (VBool true) bwa], Returns r0);
        (CallMethod js name a, Returns res);
        (NewDataFrame res w, Returns df) ].
Proof.
  intros Hp Hn Hc.
  destruct (call_attr_write _ _ _ _ _ _ _ _ _ _ _ d t i c b Hp Hn)
    as (_ & _ & evs & Htr & Hw).
  rewrite Hc in Htr, Hw. cbn in Htr, Hw.
  apply write_outcome_inr in Hw
    as (-> & js & bw & r0 & a & r' & w' & df & Hjs & Hbw & Hwr & ->).
  apply mapr_session_patch_installs in Hp as (js' & Hact & _).
  apply activation_cells in Hact as (_ & _ & Hw' & Hb').
  rewrite Hw' in Hwr. rewrite Hb' in Hbw. simplify_eq.
  split; [done|]. by exists js, r0, a, r', df.
Qed.

Lemma write_returns_none_witness :
  VNone = VNone ∧
  ∃ js r0 a res df,
    trace (call_attr bridge0 session0 "insertToMapRDB"
             (AWrite df0 (VStr "/t") None None None) world1).2 =
      trace world1 ++
      [ (CallMethod js "setBufferWrites" [default (VBool true) None], Returns r0);
        (CallMethod js "insertToMapRDB" a, Returns res);
        (NewDataFrame res wrapped0, Returns df) ].
Proof.
  apply (write_returns_none bridge0 session0 wrapped0 gw0 None None None
           world0 VNone world1 "insertToMapRDB" df0 (VStr "/t") None None None).
  - vm_compute. reflexivity.
  - unfold write_names. apply elem_of_cons. right. apply list_elem_of_singleton.
    reflexivity.
  - vm_compute. reflexivity.
Defined.

(** ** The session handle *)

(** C6: a successful construction binds the three names
    [loadFromMapRDB], [saveToMapRDB] and [insertToMapRDB] on the session
    to the closures of the new activation, adds no other attribute, and
    leaves every other attribute, and every other object, as it was. *)
Theorem patch_attaches_three bridge sess w gw dss dif bwa st0 r st1 :
  mapr_session_patch bridge sess w gw dss dif bwa st0 = (inr r, st1) →
  ∃ l ob0 ob1,
    sess = VObj l ∧ heap st0 !! l = Some ob0 ∧ heap st1 !! l = Some ob1 ∧
    (∀ x, x ∈ capability_names →
          is_Some (attrs ob1 !! x) ∧
          attrs ob1 !! x =
            capability (fresh (dom (frames st0)))
              (default (VFloat (1000 # 1)%Q) dss) (default (VStr "_id") dif) x) ∧
    (∀ x, x ∉ capability_names → attrs ob1 !! x = attrs ob0 !! x) ∧
    dom (attrs ob1) = dom (attrs ob0) ∪ list_to_set capability_names ∧
    falsy ob1 = falsy ob0 ∧
    (∀ l', l' ≠ l → heap st1 !! l' = heap st0 !! l').
Proof.
  intros H. apply mapr_session_patch_inr in H
    as (_ & l & ob & jvm & imp & cls & jss & js & -> & Hl & _ & _ & _ & Hh & _).
  eexists l, ob, _. split; [done|]. split; [done|].
  split; [rewrite Hh; apply lookup_insert_eq|]. cbn [attrs falsy].
  split; [|split; [|split; [|split]]].
  - intros x Hx.
    apply (capability_names_spec (fresh (dom (frames st0)))
             (default (VFloat (1000 # 1)%Q) dss) (default (VStr "_id") dif)) in Hx
      as [v Hv].
    rewrite patched_lookup, Hv. eauto.
  - intros x Hx. rewrite patched_lookup.
    destruct (capability _ _ _ x) eqn:Hc; [|done].
    exfalso. apply Hx. eapply capability_names_spec. eauto.
  - unfold patched, capability_names. rewrite !dom_insert_L. cbn.
    apply set_eq. intros x.
    rewrite !elem_of_union, !elem_of_singleton, elem_of_empty. tauto.
  - done.
  - intros l' Hl'. rewrite Hh. by apply lookup_insert_ne.
Qed.

Lemma patch_attaches_three_witness :
  ∃ l ob0 ob1,
    session0 = VObj l ∧ heap world0 !! l = Some ob0 ∧ heap world1 !! l = Some ob1 ∧
    (∀ x, x ∈ capability_names →
          is_Some (attrs ob1 !! x) ∧
          attrs ob1 !! x =
            capability (fresh (dom (frames world0)))
              (default (VFloat (1000 # 1)%Q) None) (default (VStr "_id") None) x) ∧
    (∀ x, x ∉ capability_names → attrs ob1 !! x = attrs ob0 !! x) ∧
    dom (attrs ob1) = dom (attrs ob0) ∪ list_to_set capability_names ∧
    falsy ob1 = falsy ob0 ∧
    (∀ l', l' ≠ l → heap world1 !! l' = heap world0 !! l').
Proof.
  apply (patch_attaches_three bridge0 session0 wrapped0 gw0 None None None
           world0 VNone world1).
  vm_compute. reflexivity.
Defined.

(** Construction goes through unless the gateway has no [jvm], the session
    has no [_jsparkSession], or the bridge raises. *)
Lemma mapr_session_patch_progress bridge sess w gw a b c st :
  is_Some (get_attr (heap st) gw "jvm") →
  is_Some (get_attr (heap st) sess "_jsparkSession") →
  (∃ v, (mapr_session_patch bridge sess w gw a b c st).1 = inr v) ∨
  (∃ evs ca e,
     trace (mapr_session_patch bridge sess w gw a b c st).2 = trace st ++ evs ∧
     (ca, Raises e) ∈ evs).
Proof.
  intros [jvm Hjvm] [jss Hjss].
  unfold mapr_session_patch, new_frame, setattr. unfold_run.
  crunch; tidy_trace;
    first
      [ left; eexists; reflexivity
      | right; do 3 eexists; split; [reflexivity|];
        solve [repeat first [ by apply list_elem_of_here | apply list_elem_of_further ]]
      | exfalso; cbn in Hjss; by simplify_option_eq ].
Qed.

(** C8: construction never looks at what the three names held before: on
    any session, and so on one that was already patched, it succeeds as
    soon as the gateway and the session have their members and the bridge
    does not raise, and the three names are then bound to the closures of
    the new activation. *)
Theorem patch_overwrites bridge sess w gw dss dif bwa st0 r st1 w' gw' dss' dif' bwa' :
  mapr_session_patch bridge sess w gw dss dif bwa st0 = (inr r, st1) →
  is_Some (get_attr (heap st1) gw' "jvm") →
  (∀ evs, trace (mapr_session_patch bridge sess w' gw' dss' dif' bwa' st1).2
            = trace st1 ++ evs → Forall returned evs) →
  (mapr_session_patch bridge sess w' gw' dss' dif' bwa' st1).1 = inr VNone ∧
  fresh (dom (frames st1)) ≠ fresh (dom (frames st0)) ∧
  ∀ x, x ∈ capability_names →
       get_attr (heap st1) sess x =
         capability (fresh (dom (frames st0)))
           (default (VFloat (1000 # 1)%Q) dss) (default (VStr "_id") dif) x ∧
       get_attr (heap (mapr_session_patch bridge sess w' gw' dss' dif' bwa' st1).2) sess x =
         capability (fresh (dom (frames st1)))
           (default (VFloat (1000 # 1)%Q) dss') (default (VStr "_id") dif') x.
Proof.
  intros H1 Hjvm Hquiet.
  pose proof (mapr_session_patch_installs _ _ _ _ _ _ _ _ _ _ H1) as (js & Hact & Hattr).
  apply mapr_session_patch_inr in H1
    as (_ & l & ob & jvm & imp & cls & jss & js1 & -> & Hl & _ & Hjss & _ & Hh & _).
  assert (is_Some (get_attr (heap st1) (VObj l) "_jsparkSession")) as Hs.
  { exists jss. cbn. rewrite Hh, lookup_insert_eq. cbn.
    rewrite patched_lookup. unfold capability, patched. by simplify_map_eq. }
  destruct (mapr_session_patch_progress bridge (VObj l) w' gw' dss' dif' bwa' st1 Hjvm Hs)
    as [[v Hv]|(evs & ca & e & Htr & Hin)].
  - destruct (mapr_session_patch bridge (VObj l) w' gw' dss' dif' bwa' st1)
      as [res st2] eqn:Hrun. cbn in Hv. subst res.
    pose proof (mapr_session_patch_installs _ _ _ _ _ _ _ _ _ _ Hrun) as (js2 & _ & Hattr2).
    apply mapr_session_patch_inr in Hrun as (-> & _).
    split; [done|]. split.
    + intros Heq. unfold activation in Hact.
      pose proof (is_fresh (dom (frames st1))) as Hfresh.
      apply Hfresh. rewrite Heq. apply elem_of_dom. eauto.
    + intros x Hx. cbn [snd].
      pose proof Hx as Hx'.
      apply (capability_names_spec (fresh (dom (frames st0)))
               (default (VFloat (1000 # 1)%Q) dss) (default (VStr "_id") dif)) in Hx
        as [v1 Hv1].
      apply (capability_names_spec (fresh (dom (frames st1)))
               (default (VFloat (1000 # 1)%Q) dss') (default (VStr "_id") dif')) in Hx'
        as [v2 Hv2].
      rewrite Hv1, Hv2. split; [by apply Hattr | by apply Hattr2].
  - exfalso. specialize (Hquiet _ Htr). rewrite Forall_forall in Hquiet.
    destruct (Hquiet _ Hin) as [v Hv]. done.
Qed.

Lemma patch_overwrites_witness :
  (mapr_session_patch bridge0 session0 wrapped0 gw0
     (Some (VInt 10)) (Some (VStr "key")) (Some (VBool false)) world1).1 = inr VNone ∧
  fresh (dom (frames world1)) ≠ fresh (dom (frames world0)) ∧
  ∀ x, x ∈ capability_names →
       get_attr (heap world1) session0 x =
         capability (fresh (dom (frames world0)))
           (default (VFloat (1000 # 1)%Q) None) (default (VStr "_id") None) x ∧
       get_attr (heap (mapr_session_patch bridge0 session0 wrapped0 gw0
                         (Some (VInt 10)) (Some (VStr "key")) (Some (VBool false))
                         world1).2) session0 x =
         capability (fresh (dom (frames world1)))
           (default (VFloat (1000 # 1)%Q) (Some (VInt 10)))
           (default (VStr "_id") (Some (VStr "key"))) x.
Proof.
  apply (patch_overwrites bridge0 session0 wrapped0 gw0 None None None
           world0 VNone world1 wrapped0 gw0
           (Some (VInt 10)) (Some (VStr "key")) (Some (VBool false))).
  - vm_compute. reflexivity.
  - vm_compute. eexists. reflexivity.
  - intros evs Hevs. vm_compute in Hevs.
    injection Hevs as <-.
    repeat (apply Forall_cons; split; [eexists; reflexivity|]).
    apply Forall_nil_2.
Defined.

(** ** Insert is save with the other native operation *)

Lemma swap_name_involutive x : swap_name (swap_name x) = x.
Proof.
  unfold swap_name.
  destruct (String.eqb x "saveToMapRDB") eqn:Hs.
  { apply String.eqb_eq in Hs. by subst. }
  destruct (String.eqb x "insertToMapRDB") eqn:Hi.
  { apply String.eqb_eq in Hi. by subst. }
  by rewrite Hs, Hi.
Qed.

Lemma swap_call_involutive c : swap_call (swap_call c) = c.
Proof. destruct c; cbn; by rewrite ?swap_name_involutive. Qed.

Lemma swap_event_involutive ev : swap_event (swap_event ev) = ev.
Proof. destruct ev as [c o]. unfold swap_event. cbn. by rewrite swap_call_involutive. Qed.

Lemma swap_trace_involutive (tr : list event) : swap_event <$> (swap_event <$> tr) = tr.
Proof.
  induction tr as [|ev tr IH]; [done|].
  cbn. by rewrite swap_event_involutive, IH.
Qed.

Lemma mirrors_ret {A} (a : A) : mirrors (ret a) (ret a).
Proof. by intros st. Qed.

Lemma mirrors_raise {A} e : mirrors (@raise A e) (raise e).
Proof. by intros st. Qed.

Lemma mirrors_read_cell f x : mirrors (read_cell f x) (read_cell f x).
Proof.
  intros st. unfold read_cell. cbn. by destruct (cell (frames st) f x).
Qed.

Lemma mirrors_getattr o x : mirrors (getattr o x) (getattr o x).
Proof.
  intros st. unfold getattr. cbn. by destruct (get_attr (heap st) o x).
Qed.

Lemma mirrors_bind_arg a ds k : mirrors (bind_arg a ds k) (bind_arg a ds k).
Proof.
  unfold bind_arg. destruct (resolve a ds k); [apply mirrors_ret | apply mirrors_raise].
Qed.

Lemma mirrors_ext bridge c :
  mirrors (ext (swap_bridge bridge) (swap_call c)) (ext bridge c).
Proof.
  intros st. unfold ext, swap_bridge. cbn.
  rewrite swap_trace_involutive, swap_call_involutive.
  destruct (bridge (trace st) c); cbn; unfold swap_state, log; cbn;
    by rewrite fmap_app.
Qed.

Lemma mirrors_bind {A B} (m1 m2 : M A) (k1 k2 : A → M B) :
  mirrors m1 m2 → (∀ a, mirrors (k1 a) (k2 a)) → mirrors (bind m1 k1) (bind m2 k2).
Proof.
  intros Hm Hk st. unfold bind. rewrite Hm.
  destruct (m2 st) as [[e|a] st1]; cbn; [done|]. apply Hk.
Qed.

(** C9: whatever the bridge and the state, insert run against the
    mirrored bridge ends as save does against the bridge, with the
    mirrored trace: the two functions take the same steps (same defaults,
    same push of the buffering flag, same wrapper built and dropped) and
    differ only in the native operation they name. *)
Theorem insert_mirrors_save bridge f ds d t i c b :
  mirrors (insertToMapRDB (swap_bridge bridge) f ds d t i c b)
          (saveToMapRDB bridge f ds d t i c b).
Proof.
  unfold insertToMapRDB, saveToMapRDB.
  repeat first
    [ apply mirrors_bind; [|intros]
    | apply mirrors_bind_arg | apply mirrors_read_cell | apply mirrors_getattr
    | apply mirrors_ret
    | match goal with
      | |- mirrors (ext _ ?c1) (ext _ ?c2) => apply (mirrors_ext bridge c2)
      end ].
Qed.

(** ** The buffering flag never changes *)

Lemma loadFromMapRDB_pushes bridge f ds t s n st :
  heap (loadFromMapRDB bridge f ds t s n st).2 = heap st ∧
  frames (loadFromMapRDB bridge f ds t s n st).2 = frames st ∧
  ∃ evs, trace (loadFromMapRDB bridge f ds t s n st).2 = trace st ++ evs ∧
    ∀ recv y o,
      (CallMethod recv "setBufferWrites" [y], o) ∈ evs ∨
      (CallMethod recv "option" [VStr "bufferWrites"; y], o) ∈ evs →
      cell (frames st) f "buffer_writes" = Some y.
Proof.
  unfold loadFromMapRDB. unfold_run. crunch; tidy_trace;
    (split; [done|]; split; [done|]); eexists;
    (split; [first [reflexivity | symmetry; apply app_nil_r]|]);
    intros recv y o [Hin|Hin];
    repeat (apply elem_of_cons in Hin as [Hin|Hin]; [by simplify_eq|]);
    by apply elem_of_nil in Hin.
Qed.

Lemma write_outcome_pushes op h fr f ds d t i c b res evs recv y o :
  write_outcome op h fr f ds d t i c b res evs →
  op ∈ write_names →
  (CallMethod recv "setBufferWrites" [y], o) ∈ evs ∨
  (CallMethod recv "option" [VStr "bufferWrites"; y], o) ∈ evs →
  cell fr f "buffer_writes" = Some y.
Proof.
  intros Hw Hop Hin.
  assert (op ≠ "setBufferWrites" ∧ op ≠ "option") as [Hop1 Hop2].
  { unfold write_names in Hop. split; intros ->;
      repeat (apply elem_of_cons in Hop as [Hop|Hop]; [discriminate|]);
      by apply elem_of_nil in Hop. }
  inversion Hw; subst; destruct Hin as [Hin|Hin];
    repeat (apply elem_of_cons in Hin as [Hin|Hin]; [by simplify_eq|]);
    by apply elem_of_nil in Hin.
Qed.

(** Calling a closure of activation [f] pushes the cell of [f] and
    changes neither the cells nor the heap. *)
Lemma call_value_pushes bridge code f ds a st :
  heap (call_value bridge (VFun code f ds) a st).2 = heap st ∧
  frames (call_value bridge (VFun code f ds) a st).2 = frames st ∧
  ∃ evs, trace (call_value bridge (VFun code f ds) a st).2 = trace st ++ evs ∧
    ∀ recv y o,
      (CallMethod recv "setBufferWrites" [y], o) ∈ evs ∨
      (CallMethod recv "option" [VStr "bufferWrites"; y], o) ∈ evs →
      cell (frames st) f "buffer_writes" = Some y.
Proof.
  assert (∀ e : exn,
    heap (@raise value e st).2 = heap st ∧ frames (@raise value e st).2 = frames st ∧
    ∃ evs, trace (@raise value e st).2 = trace st ++ evs ∧
      ∀ recv y o,
        (CallMethod recv "setBufferWrites" [y], o) ∈ evs ∨
        (CallMethod recv "option" [VStr "bufferWrites"; y], o) ∈ evs →
        cell (frames st) f "buffer_writes" = Some y) as Hraise.
  { intros e. split; [done|]. split; [done|]. exists []. split.
    - by rewrite app_nil_r.
    - intros recv y o [Hin|Hin]; by apply elem_of_nil in Hin. }
  destruct code, a; cbn [call_value]; try apply Hraise.
  - rewrite set_buffer_writes_run. apply (Hraise (NameError "")).
  - apply loadFromMapRDB_pushes.
  - destruct (saveToMapRDB_outcome bridge f ds dataframe table_name
                id_field_path create_table bulk_insert st) as (Hh & Hf & evs & Htr & Hw).
    split; [done|]. split; [done|]. exists evs. split; [done|].
    intros recv y o Hin. eapply write_outcome_pushes; [exact Hw| |exact Hin].
    unfold write_names. apply elem_of_cons. by left.
  - destruct (insertToMapRDB_outcome bridge f ds dataframe table_name
                id_field_path create_table bulk_insert st) as (Hh & Hf & evs & Htr & Hw).
    split; [done|]. split; [done|]. exists evs. split; [done|].
    intros recv y o Hin. eapply write_outcome_pushes; [exact Hw| |exact Hin].
    unfold write_names. apply elem_of_cons. right. by apply list_elem_of_singleton.
Qed.

Lemma call_value_frames bridge fn a st :
  frames (call_value bridge fn a st).2 = frames st.
Proof.
  destruct fn; try (by destruct a).
  apply call_value_pushes.
Qed.

Lemma call_attr_frames bridge s x a st :
  frames (call_attr bridge s x a st).2 = frames st.
Proof.
  unfold call_attr, bind, getattr.
  destruct (get_attr (heap st) s x); [|done]. apply call_value_frames.
Qed.

(** Construction allocates a new activation and writes to no other. *)
Lemma mapr_session_patch_frames bridge sess w gw a b c st f cells :
  frames st !! f = Some cells →
  frames (mapr_session_patch bridge sess w gw a b c st).2 !! f = Some cells.
Proof.
  intros Hf.
  assert (fresh (dom (frames st)) ≠ f) as Hne.
  { intros <-. apply (is_fresh (dom (frames st))). apply elem_of_dom. eauto. }
  unfold mapr_session_patch, new_frame, setattr. unfold_run.
  crunch; cbn [fst snd heap frames trace log set_heap set_frames];
    by rewrite ?lookup_insert_ne.
Qed.

Lemma run_op_frames bridge o st f cells :
  frames st !! f = Some cells →
  frames (run_op bridge o st).2 !! f = Some cells.
Proof.
  intros Hf. destruct o; cbn [run_op].
  - by rewrite call_value_frames.
  - by rewrite call_attr_frames.
  - by apply mapr_session_patch_frames.
Qed.

Lemma run_ops_frames bridge os st f cells :
  frames st !! f = Some cells →
  frames (run_ops bridge os st) !! f = Some cells.
Proof.
  revert st. induction os as [|o os IH]; intros st Hf; [done|].
  cbn. apply IH. by apply run_op_frames.
Qed.

(** C10: the buffering value that the closures of a construction push,
    with [setBufferWrites] in save and insert and as the [bufferWrites]
    option in load, is the [buffer_writes] argument of that construction
    ([True] when not given), after any sequence of later operations:
    calls of any closure, of [set_buffer_writes] itself, and further
    constructions. Construction binds [set_buffer_writes] to no attribute
    of the session. *)
Theorem buffering_fixed_at_construction bridge sess w gw dss dif bwa st0 r st1 os :
  mapr_session_patch bridge sess w gw dss dif bwa st0 = (inr r, st1) →
  (∀ x fr ds, get_attr (heap st1) sess x = Some (VFun FSetBufferWrites fr ds) →
              get_attr (heap st0) sess x = Some (VFun FSetBufferWrites fr ds)) ∧
  cell (frames (run_ops bridge os st1)) (fresh (dom (frames st0))) "buffer_writes"
    = Some (default (VBool true) bwa) ∧
  ∀ x fn a,
    x ∈ capability_names →
    get_attr (heap st1) sess x = Some fn →
    ∃ evs,
      trace (call_value bridge fn a (run_ops bridge os st1)).2
        = trace (run_ops bridge os st1) ++ evs ∧
      ∀ recv y o,
        (CallMethod recv "setBufferWrites" [y], o) ∈ evs ∨
        (CallMethod recv "option" [VStr "bufferWrites"; y], o) ∈ evs →
        y = default (VBool true) bwa.
Proof.
  intros Hp.
  pose proof (mapr_session_patch_installs _ _ _ _ _ _ _ _ _ _ Hp) as (js & Hact & Hattr).
  assert (cell (frames (run_ops bridge os st1)) (fresh (dom (frames st0)))
            "buffer_writes" = Some (default (VBool true) bwa)) as Hcell.
  { unfold cell. erewrite run_ops_frames; [|exact Hact]. cbn.
    apply patch_cells_lookup. }
  split; [|split; [done|]].
  - apply mapr_session_patch_inr in Hp
      as (_ & l & ob & jvm & imp & cls & jss & js1 & -> & Hl & _ & _ & _ & Hh & _).
    intros x fr ds. cbn. rewrite Hh, lookup_insert_eq, Hl. cbn.
    rewrite patched_lookup.
    destruct (capability _ _ _ x) as [v|] eqn:Hc; [|done].
    intros [= ->]. exfalso. revert Hc. unfold capability, patched.
    destruct (decide (x = "insertToMapRDB")) as [->|]; [by simplify_map_eq|].
    destruct (decide (x = "saveToMapRDB")) as [->|]; [by simplify_map_eq|].
    destruct (decide (x = "loadFromMapRDB")) as [->|]; by simplify_map_eq.
  - intros x fn a Hx Hfn.
    apply (capability_names_spec (fresh (dom (frames st0)))
             (default (VFloat (1000 # 1)%Q) dss) (default (VStr "_id") dif)) in Hx
      as [v Hv].
    pose proof (Hattr _ _ Hv) as Hfn'. rewrite Hfn in Hfn'. injection Hfn' as ->.
    assert (∃ code ds, v = VFun code (fresh (dom (frames st0))) ds) as (code & ds & ->).
    { revert Hv. unfold capability, patched.
      destruct (decide (x = "insertToMapRDB")) as [->|];
        [rewrite ?lookup_insert_eq, ?lookup_insert_ne by done; intros [= <-]; by eauto|].
      destruct (decide (x = "saveToMapRDB")) as [->|];
        [rewrite ?lookup_insert_eq, ?lookup_insert_ne by done; intros [= <-]; by eauto|].
      destruct (decide (x = "loadFromMapRDB")) as [->|];
        [rewrite ?lookup_insert_eq, ?lookup_insert_ne by done; intros [= <-]; by eauto|].
      by simplify_map_eq. }
    destruct (call_value_pushes bridge code (fresh (dom (frames st0))) ds a
                (run_ops bridge os st1)) as (_ & _ & evs & Htr & Hpush).
    exists evs. split; [done|]. intros recv y o Hin.
    specialize (Hpush _ _ _ Hin). rewrite Hcell in Hpush. by injection Hpush.
Qed.

Lemma buffering_fixed_at_construction_witness :
  (∀ x fr ds, get_attr (heap world1) session0 x = Some (VFun FSetBufferWrites fr ds) →
              get_attr (heap world0) session0 x = Some (VFun FSetBufferWrites fr ds)) ∧
  cell (frames (run_ops bridge0 later_ops0 world1)) (fresh (dom (frames world0)))
    "buffer_writes" = Some (default (VBool true) None) ∧
  ∀ x fn a,
    x ∈ capability_names →
    get_attr (heap world1) session0 x = Some fn →
    ∃ evs,
      trace (call_value bridge0 fn a (run_ops bridge0 later_ops0 world1)).2
        = trace (run_ops bridge0 later_ops0 world1) ++ evs ∧
      ∀ recv y o,
        (CallMethod recv "setBufferWrites" [y], o) ∈ evs ∨
        (CallMethod recv "option" [VStr "bufferWrites"; y], o) ∈ evs →
        y = default (VBool true) None.
Proof.
  apply (buffering_fixed_at_construction bridge0 session0 wrapped0 gw0 None None None
           world0 VNone world1 later_ops0).
  vm_compute. reflexivity.
Defined.

(** C4: the module defines [set_buffer_writes] but binds it to no
    attribute of the session, so a caller cannot reach it; and the function
    itself, run with [False] on the activation whose flag is [True],
    changes nothing: the insert that follows still pushes [True]. *)
Theorem set_buffer_writes_has_no_effect :
  call_attr bridge0 session0 "set_buffer_writes" (ASetBufferWrites (VBool false)) world1
    = (inl (AttributeError "set_buffer_writes"), world1) ∧
  set_buffer_writes 0 (VBool false) world1 = (inr VNone, world1) ∧
  cell (frames world1) 0 "buffer_writes" = Some (VBool true) ∧
  trace (call_attr bridge0 session0 "insertToMapRDB"
           (AWrite df0 (VStr "/t") None None None)
           (set_buffer_writes 0 (VBool false) world1).2).2 =
    trace world1 ++
    [ (CallMethod (VObj 102) "setBufferWrites" [VBool true], Returns (VObj 103));
      (CallMethod (VObj 102) "insertToMapRDB"
         [VObj 52; VStr "/t"; VStr "_id"; VBool false; VBool false],
       Returns (VObj 104));
      (NewDataFrame (VObj 104) wrapped0, Returns (VObj 105)) ].
Proof. repeat split; by vm_compute. Qed.

(** ** Further properties of construction *)

(** X1: a construction that fails, for whatever reason, has attached
    nothing: every object, the session included, is as it was, and so are
    the cells of every earlier activation. *)
Theorem failed_construction_changes_nothing bridge sess w gw a b c st e st' :
  mapr_session_patch bridge sess w gw a b c st = (inl e, st') →
  heap st' = heap st ∧
  ∀ f cells, frames st !! f = Some cells → frames st' !! f = Some cells.
Proof.
  intros Hrun. split.
  - revert Hrun. unfold mapr_session_patch, new_frame, setattr. unfold_run.
    crunch; intros [= <- <-]; done.
  - intros f cells Hf.
    pose proof (mapr_session_patch_frames bridge sess w gw a b c st f cells Hf) as H.
    by rewrite Hrun in H.
Qed.

Lemma failed_construction_changes_nothing_witness :
  heap (mapr_session_patch bridge2 session0 wrapped0 gw0 None None None world1).2
    = heap world1 ∧
  ∀ f cells,
    frames world1 !! f = Some cells →
    frames (mapr_session_patch bridge2 session0 wrapped0 gw0 None None None world1).2 !! f
      = Some cells.
Proof.
  apply (failed_construction_changes_nothing bridge2 session0 wrapped0 gw0
           None None None world1 (BridgeError "constructor failed")).
  vm_compute. reflexivity.
Defined.

(** X2: a gateway without [jvm] stops construction at its first
    statement: [AttributeError], no call into the bridge, no object
    changed. *)
Theorem construction_without_jvm bridge sess w gw a b c st :
  get_attr (heap st) gw "jvm" = None →
  (mapr_session_patch bridge sess w gw a b c st).1 = inl (AttributeError "jvm") ∧
  trace (mapr_session_patch bridge sess w gw a b c st).2 = trace st ∧
  heap (mapr_session_patch bridge sess w gw a b c st).2 = heap st.
Proof.
  intros Hjvm. unfold mapr_session_patch, new_frame, bind, getattr.
  cbn [fst snd heap frames trace set_frames]. by rewrite Hjvm.
Qed.

Lemma construction_without_jvm_witness :
  (mapr_session_patch bridge0 session0 wrapped0 wrapped0 None None None world0).1
    = inl (AttributeError "jvm") ∧
  trace (mapr_session_patch bridge0 session0 wrapped0 wrapped0 None None None world0).2
    = trace world0 ∧
  heap (mapr_session_patch bridge0 session0 wrapped0 wrapped0 None None None world0).2
    = heap world0.
Proof.
  apply (construction_without_jvm bridge0 session0 wrapped0 wrapped0 None None None world0).
  vm_compute. reflexivity.
Defined.

(** X3: on a session without [_jsparkSession] construction always fails
    and the native constructor is never invoked; when the gateway has its
    [jvm] and the two calls made before the argument is read return, the
    failure is the [AttributeError] for [_jsparkSession]. *)
Theorem construction_without_jsparkSession bridge sess w gw a b c st :
  get_attr (heap st) sess "_jsparkSession" = None →
  ∃ e evs,
    (mapr_session_patch bridge sess w gw a b c st).1 = inl e ∧
    trace (mapr_session_patch bridge sess w gw a b c st).2 = trace st ++ evs ∧
    (∀ cls args o, (Invoke cls args, o) ∉ evs) ∧
    (is_Some (get_attr (heap st) gw "jvm") → Forall returned evs →
     e = AttributeError "_jsparkSession" ∧ length evs = 2).
Proof.
  intros Hjss. unfold mapr_session_patch, new_frame, setattr. unfold_run.
  crunch; tidy_trace; simplify_eq; do 2 eexists;
    (split; [reflexivity|]);
    (split; [first [reflexivity | symmetry; apply app_nil_r]|]);
    (split;
     [ intros cls args o Hin;
       repeat (apply elem_of_cons in Hin as [Hin|Hin]; [discriminate|]);
       by apply elem_of_nil in Hin
     | intros [jvm Hjvm] Hall; simplify_eq;
       repeat match goal with
         | H : Forall _ (_ :: _) |- _ => apply Forall_cons in H as [[? ?] H]
         end;
       by simplify_eq/= ]).
Qed.

Lemma construction_without_jsparkSession_witness :
  ∃ e evs,
    (mapr_session_patch bridge0 wrapped0 wrapped0 gw0 None None None world0).1 = inl e ∧
    trace (mapr_session_patch bridge0 wrapped0 wrapped0 gw0 None None None world0).2
      = trace world0 ++ evs ∧
    (∀ cls args o, (Invoke cls args, o) ∉ evs) ∧
    (is_Some (get_attr (heap world0) gw0 "jvm") → Forall returned evs →
     e = AttributeError "_jsparkSession" ∧ length evs = 2).
Proof.
  apply (construction_without_jsparkSession bridge0 wrapped0 wrapped0 gw0
           None None None world0).
  vm_compute. reflexivity.
Defined.

(** ** Further properties of the capabilities *)

Lemma write_outcome_receiver op h fr f ds d t i c b res evs recv m a o :
  write_outcome op h fr f ds d t i c b res evs →
  (CallMethod recv m a, o) ∈ evs →
  cell fr f "mapr_j_session" = Some recv.
Proof.
  intros Hw Hin.
  inversion Hw; subst;
    repeat (apply elem_of_cons in Hin as [Hin|Hin]; [by simplify_eq|]);
    by apply elem_of_nil in Hin.
Qed.

(** X4: a save or insert whose data frame has no [_jdf] (for instance
    [None] passed as the data frame) still pushes the buffering flag into
    the native session first; that is the only call it makes. The native
    write is never invoked, and the call fails with the error of
    [setBufferWrites] if that raised, else with the [AttributeError] for
    [_jdf]. *)
Theorem write_without_jdf bridge sess w gw dss dif bwa st0 r st1 name d t i c b :
  mapr_session_patch bridge sess w gw dss dif bwa st0 = (inr r, st1) →
  name ∈ write_names →
  get_attr (heap st1) d "_jdf" = None →
  ∃ js o,
    trace (call_attr bridge sess name (AWrite d t i c b) st1).2 =
      trace st1 ++ [(CallMethod js "setBufferWrites" [default (VBool true) bwa], o)] ∧
    (call_attr bridge sess name (AWrite d t i c b) st1).1 =
      inl (match o with Raises e => e | Returns _ => AttributeError "_jdf" end).
Proof.
  intros Hp Hn Hjdf.
  destruct (call_attr_write _ _ _ _ _ _ _ _ _ _ _ d t i c b Hp Hn)
    as (_ & _ & evs & Htr & Hw).
  apply mapr_session_patch_installs in Hp as (js & Hact & _).
  apply activation_cells in Hact as (Hjs & _ & _ & Hbw).
  exists js.
  destruct (write_outcome_starts _ _ _ _ _ _ _ _ _ _ _ _ _ _ Hw Hjs Hbw)
    as (o & rest & Hevs); [by destruct i | by destruct c | by destruct b |].
  exists o. rewrite Htr.
  inversion Hw; subst; simplify_eq; done.
Qed.

Lemma write_without_jdf_witness :
  ∃ js o,
    trace (call_attr bridge0 session0 "saveToMapRDB"
             (AWrite VNone (VStr "/t") None None None) world1).2 =
      trace world1 ++ [(CallMethod js "setBufferWrites" [default (VBool true) None], o)] ∧
    (call_attr bridge0 session0 "saveToMapRDB"
       (AWrite VNone (VStr "/t") None None None) world1).1 =
      inl (match o with Raises e => e | Returns _ => AttributeError "_jdf" end).
Proof.
  apply (write_without_jdf bridge0 session0 wrapped0 gw0 None None None
           world0 VNone world1 "saveToMapRDB").
  - vm_compute. reflexivity.
  - unfold write_names. apply elem_of_cons. left. reflexivity.
  - vm_compute. reflexivity.
Defined.

(** X5: a load talks to the session's reader only: every call it makes is
    the read of [read] on the captured session or one of the reader
    methods [format], [option], [schema], [load] (so never
    [setBufferWrites] or a native write), and it changes no object and no
    captured variable. *)
Theorem load_calls_reader_only bridge f ds t s n st :
  heap (loadFromMapRDB bridge f ds t s n st).2 = heap st ∧
  frames (loadFromMapRDB bridge f ds t s n st).2 = frames st ∧
  ∃ evs,
    trace (loadFromMapRDB bridge f ds t s n st).2 = trace st ++ evs ∧
    ∀ ca o, (ca, o) ∈ evs →
      (∃ sess, ca = GetMember sess "read" ∧
               cell (frames st) f "original_session" = Some sess) ∨
      (∃ recv m a, ca = CallMethod recv m a ∧ m ∈ reader_methods).
Proof.
  unfold loadFromMapRDB. unfold_run. crunch; tidy_trace;
    (split; [done|]; split; [done|]); eexists;
    (split; [first [reflexivity | symmetry; apply app_nil_r]|]);
    intros ca o Hin;
    repeat (apply elem_of_cons in Hin as [Hin|Hin];
            [ injection Hin as -> ->;
              first [ left; eexists; split; [reflexivity|first [assumption|reflexivity]]
                    | right; do 3 eexists; split; [reflexivity|];
                      unfold reader_methods;
                      solve [repeat first [ by apply list_elem_of_here
                                          | apply list_elem_of_further ]] ]
            |]);
    by apply elem_of_nil in Hin.
Qed.

(** X6: in every run of a load, also one in which [load()] itself raises,
    the call of [load] is the last call, it is made on the reader returned
    by the third [option], and before it the reader was configured in
    full: [read], [format], the three options, and the schema call exactly
    when the schema is true. *)
Theorem load_is_triggered_last bridge f ds t s n st :
  ∃ evs,
    trace (loadFromMapRDB bridge f ds t s n st).2 = trace st ++ evs ∧
    ∀ pre rdr a o post,
      evs = pre ++ (CallMethod rdr "load" a, o) :: post →
      post = [] ∧ a = [] ∧
      ∃ sch smp sess bw r0 r1 r2 r3 applied,
        resolve s ds 0 = Some sch ∧ resolve n ds 1 = Some smp ∧
        cell (frames st) f "original_session" = Some sess ∧
        cell (frames st) f "buffer_writes" = Some bw ∧
        pre = reader_calls sess t smp bw r0 r1 r2 r3 rdr ++ applied ∧
        if truthy (heap st) sch
        then ∃ rs, applied = [(CallMethod rdr "schema" [sch], Returns rs)]
        else applied = [].
Proof.
  unfold loadFromMapRDB. unfold_run. crunch; tidy_trace; eexists;
    (split; [first [reflexivity | symmetry; apply app_nil_r]|]);
    intros pre rdr a o post Hev;
    repeat (destruct pre as [|? pre]; simplify_eq/=);
    try (by destruct pre);
    (split; [done|]; split; [done|]);
    do 9 eexists; unfold reader_calls;
    repeat (split; [first [eassumption | reflexivity]|]);
    match goal with
    | H : truthy _ _ = _ |- _ => rewrite H
    end; eauto.
Qed.

(** X7: no call of a capability, whatever the value called and whatever
    its arguments and outcome, assigns an attribute or a captured
    variable: the objects and the cells are those of before the call. *)
Theorem capabilities_assign_nothing bridge :
  (∀ fn a st, heap (call_value bridge fn a st).2 = heap st ∧
              frames (call_value bridge fn a st).2 = frames st) ∧
  (∀ sess x a st, heap (call_attr bridge sess x a st).2 = heap st ∧
                  frames (call_attr bridge sess x a st).2 = frames st).
Proof.
  assert (∀ fn a st, heap (call_value bridge fn a st).2 = heap st ∧
                     frames (call_value bridge fn a st).2 = frames st) as Hcv.
  { intros fn a st. destruct fn; try (by destruct a).
    destruct (call_value_pushes bridge code frame defaults a st) as (Hh & Hf & _).
    done. }
  split; [done|].
  intros sess x a st. unfold call_attr, bind, getattr.
  destruct (get_attr (heap st) sess x); [apply Hcv|done].
Qed.

(** X8: the native session that save and insert talk to is the object the
    [MapRDBJavaSession] constructor returned during construction: a
    successful construction makes three calls (the import, the class
    lookup on the [jvm] view, the constructor applied to the session's
    [_jsparkSession]), and every method call of a later save or insert
    through the session has the constructor's result as receiver. *)
Theorem writes_use_constructed_session bridge sess w gw dss dif bwa st0 r st1 :
  mapr_session_patch bridge sess w gw dss dif bwa st0 = (inr r, st1) →
  ∃ jvm imp cls jss js,
    get_attr (heap st0) gw "jvm" = Some jvm ∧
    get_attr (heap st0) sess "_jsparkSession" = Some jss ∧
    trace st1 = trace st0 ++
      [ (JavaImport jvm "com.mapr.db.spark.sql.api.java.MapRDBJavaSession", Returns imp);
        (GetMember jvm "MapRDBJavaSession", Returns cls);
        (Invoke cls [jss], Returns js) ] ∧
    ∀ name d t i c b,
      name ∈ write_names →
      ∃ evs,
        trace (call_attr bridge sess name (AWrite d t i c b) st1).2 = trace st1 ++ evs ∧
        ∀ recv m a o, (CallMethod recv m a, o) ∈ evs → recv = js.
Proof.
  intros Hp.
  pose proof (mapr_session_patch_inr _ _ _ _ _ _ _ _ _ _ Hp)
    as (_ & l & ob & jvm & imp & cls & jss & js & -> & Hl & Hjvm & Hjss & Hfr & _ & Htr).
  exists jvm, imp, cls, jss, js.
  split; [done|]. split; [cbn; by rewrite Hl|]. split; [done|].
  intros name d t i c b Hn.
  destruct (call_attr_write _ _ _ _ _ _ _ _ _ _ _ d t i c b Hp Hn)
    as (_ & _ & evs & Hevs & Hw).
  exists evs. split; [done|]. intros recv m a o Hin.
  pose proof (write_outcome_receiver _ _ _ _ _ _ _ _ _ _ _ _ _ _ _ _ Hw Hin) as Hrecv.
  unfold cell in Hrecv. rewrite Hfr, lookup_insert_eq in Hrecv. cbn in Hrecv.
  destruct (patch_cells_lookup (VObj l) w (default (VBool true) bwa) js) as (Hjs & _).
  rewrite Hjs in Hrecv. by injection Hrecv.
Qed.

Lemma writes_use_constructed_session_witness :
  ∃ jvm imp cls jss js,
    get_attr (heap world0) gw0 "jvm" = Some jvm ∧
    get_attr (heap world0) session0 "_jsparkSession" = Some jss ∧
    trace world1 = trace world0 ++
      [ (JavaImport jvm "com.mapr.db.spark.sql.api.java.MapRDBJavaSession", Returns imp);
        (GetMember jvm "MapRDBJavaSession", Returns cls);
        (Invoke cls [jss], Returns js) ] ∧
    ∀ name d t i c b,
      name ∈ write_names →
      ∃ evs,
        trace (call_attr bridge0 session0 name (AWrite d t i c b) world1).2
          = trace world1 ++ evs ∧
        ∀ recv m a o, (CallMethod recv m a, o) ∈ evs → recv = js.
Proof.
  apply (writes_use_constructed_session bridge0 session0 wrapped0 gw0 None None None
           world0 VNone world1).
  vm_compute. reflexivity.
Defined.

(** X9: constructions do not share configuration. After a second
    successful construction on the same session, a capability read from
    the session pushes the second construction's buffering flag, while a
    capability read from the session before it still pushes the first
    one's. *)
Theorem repatch_keeps_old_closures bridge sess w gw dss dif bwa st0 r1 st1
    w' gw' dss' dif' bwa' r2 st2 x old new a :
  mapr_session_patch bridge sess w gw dss dif bwa st0 = (inr r1, st1) →
  mapr_session_patch bridge sess w' gw' dss' dif' bwa' st1 = (inr r2, st2) →
  x ∈ capability_names →
  get_attr (heap st1) sess x = Some old →
  get_attr (heap st2) sess x = Some new →
  (∃ evs,
     trace (call_value bridge old a st2).2 = trace st2 ++ evs ∧
     ∀ recv y o,
       (CallMethod recv "setBufferWrites" [y], o) ∈ evs ∨
       (CallMethod recv "option" [VStr "bufferWrites"; y], o) ∈ evs →
       y = default (VBool true) bwa) ∧
  (∃ evs,
     trace (call_value bridge new a st2).2 = trace st2 ++ evs ∧
     ∀ recv y o,
       (CallMethod recv "setBufferWrites" [y], o) ∈ evs ∨
       (CallMethod recv "option" [VStr "bufferWrites"; y], o) ∈ evs →
       y = default (VBool true) bwa').
Proof.
  intros H1 H2 Hx Hold Hnew.
  assert (∀ bridge' s0 wr g ds0 df0' bw0 sa ra sb v,
    mapr_session_patch bridge' s0 wr g ds0 df0' bw0 sa = (inr ra, sb) →
    get_attr (heap sb) s0 x = Some v →
    ∃ code ds, v = VFun code (fresh (dom (frames sa))) ds ∧
      cell (frames sb) (fresh (dom (frames sa))) "buffer_writes"
        = Some (default (VBool true) bw0) ∧
      ∃ cells, frames sb !! fresh (dom (frames sa)) = Some cells) as Hshape.
  { intros bridge' s0 wr g ds0 df0' bw0 sa ra sb v Hp Hv.
    apply mapr_session_patch_installs in Hp as (js & Hact & Hattr).
    pose proof Hx as Hx'.
    apply (capability_names_spec (fresh (dom (frames sa)))
             (default (VFloat (1000 # 1)%Q) ds0) (default (VStr "_id") df0')) in Hx'
      as [v' Hv'].
    pose proof (Hattr _ _ Hv') as Hv''. rewrite Hv in Hv''. injection Hv'' as <-.
    assert (∃ code ds, v = VFun code (fresh (dom (frames sa))) ds) as (code & ds & ->).
    { revert Hv'. unfold capability, patched.
      destruct (decide (x = "insertToMapRDB")) as [->|];
        [rewrite ?lookup_insert_eq, ?lookup_insert_ne by done; intros [= <-]; by eauto|].
      destruct (decide (x = "saveToMapRDB")) as [->|];
        [rewrite ?lookup_insert_eq, ?lookup_insert_ne by done; intros [= <-]; by eauto|].
      destruct (decide (x = "loadFromMapRDB")) as [->|];
        [rewrite ?lookup_insert_eq, ?lookup_insert_ne by done; intros [= <-]; by eauto|].
      by simplify_map_eq. }
    exists code, ds. split; [done|]. split.
    - by apply activation_cells in Hact as (_ & _ & _ & Hbw).
    - eexists. exact Hact. }
  destruct (Hshape _ _ _ _ _ _ _ _ _ _ _ H1 Hold) as (c1 & d1 & -> & Hb1 & cells1 & Hf1).
  destruct (Hshape _ _ _ _ _ _ _ _ _ _ _ H2 Hnew) as (c2 & d2 & -> & Hb2 & _).
  split.
  - destruct (call_value_pushes bridge c1 (fresh (dom (frames st0))) d1 a st2)
      as (_ & _ & evs & Htr & Hpush).
    exists evs. split; [done|]. intros recv y o Hin.
    specialize (Hpush _ _ _ Hin).
    pose proof (mapr_session_patch_frames bridge sess w' gw' dss' dif' bwa' st1 _ _ Hf1) as Hk.
    rewrite H2 in Hk. cbn in Hk.
    unfold cell in Hpush, Hb1. rewrite Hk in Hpush. rewrite Hf1 in Hb1.
    rewrite Hb1 in Hpush. by injection Hpush.
  - destruct (call_value_pushes bridge c2 (fresh (dom (frames st1))) d2 a st2)
      as (_ & _ & evs & Htr & Hpush).
    exists evs. split; [done|]. intros recv y o Hin.
    specialize (Hpush _ _ _ Hin). rewrite Hb2 in Hpush. by injection Hpush.
Qed.

Lemma repatch_keeps_old_closures_witness :
  (∃ evs,
     trace (call_value bridge0
              (VFun FSaveToMapRDB 0 [VStr "_id"; VBool false; VBool false])
              (AWrite df0 (VStr "/t") None None None)
              (mapr_session_patch bridge0 session0 wrapped0 gw0
                 None None (Some (VBool false)) world1).2).2
       = trace (mapr_session_patch bridge0 session0 wrapped0 gw0
                  None None (Some (VBool false)) world1).2 ++ evs ∧
     ∀ recv y o,
       (CallMethod recv "setBufferWrites" [y], o) ∈ evs ∨
       (CallMethod recv "option" [VStr "bufferWrites"; y], o) ∈ evs →
       y = default (VBool true) None) ∧
  (∃ evs,
     trace (call_value bridge0
              (VFun FSaveToMapRDB 1 [VStr "_id"; VBool false; VBool false])
              (AWrite df0 (VStr "/t") None None None)
              (mapr_session_patch bridge0 session0 wrapped0 gw0
                 None None (Some (VBool false)) world1).2).2
       = trace (mapr_session_patch bridge0 session0 wrapped0 gw0
                  None None (Some (VBool false)) world1).2 ++ evs ∧
     ∀ recv y o,
       (CallMethod recv "setBufferWrites" [y], o) ∈ evs ∨
       (CallMethod recv "option" [VStr "bufferWrites"; y], o) ∈ evs →
       y = default (VBool true) (Some (VBool false))).
Proof.
  apply (repatch_keeps_old_closures bridge0 session0 wrapped0 gw0 None None None
           world0 VNone world1 wrapped0 gw0 None None (Some (VBool false)) VNone
           (mapr_session_patch bridge0 session0 wrapped0 gw0
              None None (Some (VBool false)) world1).2
           "saveToMapRDB").
  - vm_compute. reflexivity.
  - vm_compute. reflexivity.
  - unfold capability_names. apply elem_of_cons. right. apply elem_of_cons. left.
    reflexivity.
  - vm_compute. reflexivity.
  - vm_compute. reflexivity.
Defined.
